(** * KEGG Pathways to OBO: the record linkage of [pyobo.sources.kegg.pathway]

    A shallow embedding of [src/pyobo/sources/kegg/pathway.py].

    - Python [str] is [string]; a character is one of the code points
      U+0000..U+00FF (Rocq's [ascii]), on which [isnumeric] and the white
      space of [strip] are tabulated exactly.
    - A Python [dict] is an association list in insertion order: the order
      of [terms.values()] and of [rv.items()] is what the generators emit.
    - A raised exception is the [Raise] case of [Res]; a generator is the
      trace of what it yields and of what it hands to [tqdm.write], together
      with the way it ends (exhausted, or an exception that escapes it).
    - A text file is the list of lines that iterating over it produces. *)

From Stdlib Require Import List String Ascii Bool Arith NArith ZArith Lia.
From Stdlib Require Import Sorting.Mergesort Sorting.Sorted Sorting.Permutation.
From Stdlib Require Import Orders OrderedTypeEx DecimalString.
Import ListNotations.

Local Open Scope string_scope.
Local Open Scope list_scope.

(** ** Exceptions and results *)

(** Why a [ValueError] was raised: [min()] of an empty iterable, or a tuple
    assignment whose right-hand side has the wrong number of items. *)
Inductive value_error : Type :=
| MinEmptySequence
| Unpack (expected got : nat).

Inductive exn : Type :=
| ValueError (why : value_error)
| AttributeError (attribute : string)   (* attribute looked up on [None] *)
| HTTPError (code : Z) (url : string)   (* [urllib.error.HTTPError] *)
| URLError (reason : string).           (* [urllib.error.URLError] proper *)

Inductive Res (A : Type) : Type :=
| Ok (a : A)
| Raise (e : exn).
Arguments Ok {A} a.
Arguments Raise {A} e.

Definition rbind {A B : Type} (m : Res A) (f : A -> Res B) : Res B :=
  match m with
  | Ok a => f a
  | Raise e => Raise e
  end.

Declare Scope res_scope.
Delimit Scope res_scope with res.
Notation "x <- m ;; k" := (rbind m (fun x => k))
  (at level 61, m at next level, right associativity) : res_scope.
Notation "' p <- m ;; k" := (rbind m (fun x => let p := x in k))
  (at level 61, p pattern, m at next level, right associativity) : res_scope.

(** [for x in xs: s = body(x, s)], stopping at the first exception. *)
Fixpoint for_each {X S : Type} (body : S -> X -> Res S) (xs : list X) (s : S)
  : Res S :=
  match xs with
  | [] => Ok s
  | x :: xs' => rbind (body s x) (for_each body xs')
  end.

(** ** Python's [str] *)

Definition tab : ascii := "009"%char.

(** [str.isnumeric] on one character: the Unicode property Numeric_Type is
    set, below U+0100, for the ten digits, the superscripts two, three and
    one, and the three vulgar fractions. *)
Definition isnumeric (c : ascii) : bool :=
  let n := N_of_ascii c in
  ((48 <=? n) && (n <=? 57) || (n =? 178) || (n =? 179) || (n =? 185)
   || (188 <=? n) && (n <=? 190))%N.

(** The ASCII decimal digits. *)
Definition isdigit (c : ascii) : bool :=
  let n := N_of_ascii c in ((48 <=? n) && (n <=? 57))%N.

(** The characters [str.strip()] removes, below U+0100. *)
Definition isspace (c : ascii) : bool :=
  let n := N_of_ascii c in
  ((9 <=? n) && (n <=? 13) || (28 <=? n) && (n <=? 32) || (n =? 133)
   || (n =? 160))%N.

Fixpoint lstrip (s : string) : string :=
  match s with
  | String c r => if isspace c then lstrip r else s
  | EmptyString => EmptyString
  end.

Fixpoint rstrip (s : string) : string :=
  match s with
  | EmptyString => EmptyString
  | String c r =>
      match rstrip r with
      | EmptyString => if isspace c then EmptyString else String c EmptyString
      | r' => String c r'
      end
  end.

(** [s.strip()] *)
Definition strip (s : string) : string := rstrip (lstrip s).

(** [s.split(sep)] for a one-character separator: never empty. *)
Fixpoint split (sep : ascii) (s : string) : list string :=
  match s with
  | EmptyString => [EmptyString]
  | String c r =>
      if Ascii.eqb c sep then EmptyString :: split sep r
      else match split sep r with
           | h :: t => String c h :: t
           | [] => [String c EmptyString]
           end
  end.

(** [s[n:]]: the whole of [s] goes when it has no more than [n] characters. *)
Fixpoint slice_from (n : nat) (s : string) : string :=
  match n, s with
  | O, _ => s
  | S _, EmptyString => EmptyString
  | S n', String _ r => slice_from n' r
  end.

(** [s[:n]] *)
Fixpoint slice_to (n : nat) (s : string) : string :=
  match n, s with
  | O, _ => EmptyString
  | S _, EmptyString => EmptyString
  | S n', String c r => String c (slice_to n' r)
  end.

Fixpoint enumerate_from (i : nat) (s : string) : list (nat * ascii) :=
  match s with
  | EmptyString => []
  | String c r => (i, c) :: enumerate_from (S i) r
  end.

(** [enumerate(s)] *)
Definition enumerate (s : string) : list (nat * ascii) := enumerate_from 0 s.

(** [min(iterable)] over integers: [ValueError] on an empty iterable. *)
Definition py_min (l : list nat) : Res nat :=
  match l with
  | [] => Raise (ValueError MinEmptySequence)
  | x :: r => Ok (fold_left Nat.min r x)
  end.

(** [a, b = parts] *)
Definition unpack2 (parts : list string) : Res (string * string) :=
  match parts with
  | [a; b] => Ok (a, b)
  | _ => Raise (ValueError (Unpack 2 (List.length parts)))
  end.

(** [sorted(v)] on a list of [str]: the order is the one of the code points,
    and equal strings cannot be told apart, so every sorting algorithm
    returns the same list. *)
Module StrOrder <: TotalLeBool.
Definition t := string.
Definition leb := String.leb.
Definition leb_total : forall a b, leb a b = true \/ leb b a = true :=
  String.leb_total.
End StrOrder.

Module StrSort := Sort StrOrder.

Definition sorted (v : list string) : list string := StrSort.sort v.

(** [f'{code}'] for an [int] *)
Definition str_of_int (z : Z) : string := NilZero.string_of_int (Z.to_int z).

(** ** Python's [dict], in insertion order *)

Definition dict (V : Type) : Type := list (string * V).

(** [d.get(k)] *)
Fixpoint dict_get {V : Type} (d : dict V) (k : string) : option V :=
  match d with
  | [] => None
  | (k', v) :: r => if String.eqb k' k then Some v else dict_get r k
  end.

(** [d[k] = v]: a key already there keeps its place. *)
Fixpoint dict_set {V : Type} (d : dict V) (k : string) (v : V) : dict V :=
  match d with
  | [] => [(k, v)]
  | (k', v') :: r =>
      if String.eqb k' k then (k', v) :: r else (k', v') :: dict_set r k v
  end.

(** [d.keys()], [d.values()] *)
Definition keys {V : Type} (d : dict V) : list string := map fst d.
Definition values {V : Type} (d : dict V) : list V := map snd d.

(** [rv[k].append(x)] on a [defaultdict(list)] *)
Definition defaultdict_append (rv : dict (list string)) (k x : string)
  : dict (list string) :=
  match dict_get rv k with
  | Some v => dict_set rv k (v ++ [x])
  | None => dict_set rv k ([] ++ [x])
  end.

(** [d[k]] mutated in place: the object stored under [k] is changed, the
    dict itself (keys, order) is not. *)
Fixpoint dict_update {V : Type} (d : dict V) (k : string) (f : V -> V)
  : dict V :=
  match d with
  | [] => []
  | (k', v) :: r =>
      if String.eqb k' k then (k', f v) :: r else (k', v) :: dict_update r k f
  end.

(** ** Generators *)

(** What a running generator does that its caller can see: it yields a
    value, or it hands a line to [tqdm.write]. *)
Inductive event (Y : Type) : Type :=
| Yield (y : Y)
| Write (msg : string).
Arguments Yield {Y} y.
Arguments Write {Y} msg.

(** A computation that yields [Y]s: its events in order, then its end. *)
Definition Gen (Y A : Type) : Type := (list (event Y) * Res A)%type.

Definition gret {Y A : Type} (a : A) : Gen Y A := ([], Ok a).

Definition gbind {Y A B : Type} (m : Gen Y A) (f : A -> Gen Y B) : Gen Y B :=
  match m with
  | (es, Ok a) => let '(es', r) := f a in (es ++ es', r)
  | (es, Raise e) => (es, Raise e)
  end.

Declare Scope gen_scope.
Delimit Scope gen_scope with gen.
Notation "x <- m ;; k" := (gbind m (fun x => k))
  (at level 61, m at next level, right associativity) : gen_scope.

(** A step that yields nothing and may raise. *)
Definition glift {Y A : Type} (r : Res A) : Gen Y A := ([], r).

Definition yield {Y : Type} (y : Y) : Gen Y unit := ([Yield y], Ok tt).

(** [yield from xs] for a list (or the values of a dict) *)
Definition yield_from {Y : Type} (ys : list Y) : Gen Y unit :=
  (map Yield ys, Ok tt).

Definition tqdm_write {Y : Type} (msg : string) : Gen Y unit :=
  ([Write msg], Ok tt).

(** [for x in xs: body] inside a generator, over a list, with the state the
    body changes. *)
Fixpoint gfor_each {Y X S : Type} (body : S -> X -> Gen Y S) (xs : list X)
  (s : S) : Gen Y S :=
  match xs with
  | [] => gret s
  | x :: xs' => gbind (body s x) (gfor_each body xs')
  end.

(** [for x in g: body] where [g] is itself a generator: [g] runs up to its
    next [yield], then the body runs; what [g] writes on the way is
    written; an exception of the body ends the loop before [g] resumes, and
    an exception of [g] ends it when [g] reaches it. *)
Fixpoint gfor_gen_events {X Y : Type} (es : list (event X)) (ending : Res unit)
  (body : X -> Gen Y unit) : Gen Y unit :=
  match es with
  | [] => glift ending
  | Write msg :: es' =>
      gbind (tqdm_write msg) (fun _ => gfor_gen_events es' ending body)
  | Yield x :: es' =>
      gbind (body x) (fun _ => gfor_gen_events es' ending body)
  end.

Definition gfor_gen {X Y : Type} (g : Gen X unit) (body : X -> Gen Y unit)
  : Gen Y unit :=
  gfor_gen_events (fst g) (snd g) body.

(** What a consumer of the generator receives, and what the operator sees. *)
Fixpoint yielded {Y : Type} (es : list (event Y)) : list Y :=
  match es with
  | [] => []
  | Yield y :: r => y :: yielded r
  | Write _ :: r => yielded r
  end.

Fixpoint written {Y : Type} (es : list (event Y)) : list string :=
  match es with
  | [] => []
  | Yield _ :: r => written r
  | Write m :: r => m :: written r
  end.

(** ** The data model of [pyobo.struct] and [pyobo.sources.kegg.genome] *)

(** Modelled from the spec: [pyobo.struct.Reference] is not among the
    sources; identity of an entity is (namespace, code, display name?). *)
Record Reference : Type := mkReference {
  prefix : string;
  identifier : string;
  name : option string
}.

(** The relationship kinds the module declares or imports (each one a
    [TypeDef] object): [from_kegg_species] is [inKeggTaxon], [from_species]
    is the generic in-taxon relation. *)
Inductive TypeDef : Type :=
| from_kegg_species
| species_specific
| from_species
| has_part.

Definition TypeDef_eqb (a b : TypeDef) : bool :=
  match a, b with
  | from_kegg_species, from_kegg_species => true
  | species_specific, species_specific => true
  | from_species, from_species => true
  | has_part, has_part => true
  | _, _ => false
  end.

(** Modelled from the spec: [pyobo.struct.Term] is not among the sources; a
    Term owns one Reference, an ordered list of outgoing typed
    relationships and an optional species attribute (a taxonomy
    identifier). *)
Record Term : Type := mkTerm {
  reference : Reference;
  relationships : list (TypeDef * Reference);
  species : option string
}.

(** [Term(reference=r)] *)
Definition new_Term (r : Reference) : Term := mkTerm r [] None.

(** Modelled from the spec: [Term.append_relationship] appends one typed
    edge after those the Term already has. *)
Definition append_relationship (t : Term) (typedef : TypeDef) (r : Reference)
  : Term :=
  mkTerm (reference t) (relationships t ++ [(typedef, r)]) (species t).

(** Modelled from the spec: [Term.set_species] sets the species attribute
    to the taxonomy identifier. *)
Definition set_species (t : Term) (taxonomy : string) : Term :=
  mkTerm (reference t) (relationships t) (Some taxonomy).

(** The targets of a Term's edges of one kind, in order. *)
Definition targets (typedef : TypeDef) (t : Term) : list Reference :=
  map snd (filter (fun e => TypeDef_eqb (fst e) typedef) (relationships t)).

(** Modelled from the spec: [KEGGGenome] is not among the sources; a genome
    is (organism code, display name, taxonomy id?). *)
Record KEGGGenome : Type := mkGenome {
  genome_identifier : string;
  genome_name : string;
  taxonomy_id : option string
}.

(** ** Concrete collaborators

    Small files and fetchers on which the definitions below are run. A line
    is written with the tab and the line end it has in the file. *)

Module Scenario.

Definition row (a b : string) : string :=
  (a ++ String tab (b ++ String "010"%char EmptyString))%string.

Definition hsa : KEGGGenome := mkGenome "hsa" "Homo sapiens" (Some "9606").
Definition xyz : KEGGGenome := mkGenome "xyz" "Xyz organism" None.

Definition get_reference (g : KEGGGenome) : Reference :=
  mkReference "kegg.genome" (genome_identifier g) (Some (genome_name g)).

Definition catalog : dict string := [("map00010", "Glycolysis")].

(** The files, by path. *)
Definition open_lines (path : string) : list string :=
  if String.eqb path "hsa.list" then
    [row "path:hsa00010" "Glycolysis / Gluconeogenesis"]
  else if String.eqb path "hsa.link" then
    [row "b:123" "path:hsa00010"; row "b:045" "path:hsa00010"]
  else if String.eqb path "twice.link" then
    [row "b:123" "path:hsa00010"; row "b:123" "path:hsa00010"]
  else if String.eqb path "stray.link" then
    [row "b:1" "path:hsa99999"]
  else if String.eqb path "renamed.list" then
    [row "path:hsa00010" "Glycolysis"; row "path:hsa00020" "TCA cycle";
     row "path:hsa00010" "Glycolysis / Gluconeogenesis"]
  else if String.eqb path "unprefixed.list" then
    [row "hsa00010" "Glycolysis"]
  else if String.eqb path "unprefixed.link" then
    [row "b:123" "hsa00010"]
  else [].

(** Fetchers: every genome's listing is there; the link table is there
    for [hsa], not published for [xyz]. *)
Definition ensure_list (identifier : string) : Res string :=
  Ok (identifier ++ ".list")%string.

Definition ensure_link (identifier : string) : Res string :=
  if String.eqb identifier "xyz"
  then Raise (HTTPError 404 "http://rest.kegg.jp/link/pathway/xyz")
  else Ok (identifier ++ ".link")%string.

(** A server that answers 500 for [xyz]. *)
Definition ensure_link_500 (identifier : string) : Res string :=
  if String.eqb identifier "xyz"
  then Raise (HTTPError 500 "http://rest.kegg.jp/link/pathway/xyz")
  else Ok (identifier ++ ".link")%string.

(** A connection that times out for [xyz]: [urlopen] raises a [URLError]
    that is not an [HTTPError]. *)
Definition ensure_list_down (identifier : string) : Res string :=
  if String.eqb identifier "xyz"
  then Raise (URLError "timed out")
  else Ok (identifier ++ ".list")%string.

End Scenario.

(** More files, beside those of [Scenario]: a listing that names a code
    twice, with a link table for it; a listing whose second line has no
    name; a link table with a blank line; and a genome whose listing is
    empty while its link table is not. *)

Module Cases.

Definition open_lines (path : string) : list string :=
  if String.eqb path "two.list" then
    [Scenario.row "path:hsa00020" "TCA cycle";
     Scenario.row "path:hsa00010" "Glycolysis / Gluconeogenesis";
     Scenario.row "path:hsa00020" "Citrate cycle (TCA cycle)"]
  else if String.eqb path "two.link" then
    [Scenario.row "b:1" "path:hsa00010"; Scenario.row "b:2" "path:hsa00020";
     Scenario.row "b:3" "path:hsa00010"]
  else if String.eqb path "noname.list" then
    [Scenario.row "path:hsa00010" "Glycolysis / Gluconeogenesis";
     Scenario.row "path:hsa00030" ""; Scenario.row "path:hsa00020" "TCA cycle"]
  else if String.eqb path "blank.link" then
    [Scenario.row "b:1" "path:hsa00010"; String "010"%char EmptyString;
     Scenario.row "b:2" "path:hsa00020"]
  else if String.eqb path "stray.list" then []
  else Scenario.open_lines path.

Definition stray : KEGGGenome := mkGenome "stray" "Stray organism" None.

End Cases.

(** ** The module [pyobo.sources.kegg.pathway] *)

Section Pathway.

(** What the module imports and does not define. *)

(** [pyobo.sources.kegg.api.KEGG_PATHWAY_PREFIX] *)
Variable KEGG_PATHWAY_PREFIX : string.

(** [ensure_list_pathways()]: the catalog, identifier to name, in the
    order of its items, or the collaborator's own exception. *)
Variable ensure_list_pathways : Res (dict string).

(** [ensure_list_pathway_genome(identifier)] and
    [ensure_link_pathway_genome(identifier)]: the local path of the
    fetched file, or the exception of the download. *)
Variable ensure_list_pathway_genome : string -> Res string.
Variable ensure_link_pathway_genome : string -> Res string.

(** [iter_kegg_genomes()] *)
Variable iter_kegg_genomes : list KEGGGenome.

(** [KEGGGenome.get_reference] *)
Variable get_reference : KEGGGenome -> Reference.

(** [open(path)], iterated: the lines of the file, line ends included. *)
Variable open_lines : string -> list string.

(** *** [_get_link_pathway_map] *)

(** The body of [for line in file]. The list under [rv[pathway]] receives
    [pathway], as the source has it; [protein] is bound and not used. *)
Definition link_line (rv : dict (list string)) (line : string)
  : Res (dict (list string)) :=
  ('(protein, pathway) <- unpack2 (split tab (strip line)) ;;
   let pathway := slice_from (String.length "path:") pathway in
   Ok (defaultdict_append rv pathway pathway))%res.

Definition _get_link_pathway_map (path : string) : Res (dict (list string)) :=
  (rv <- for_each link_line (open_lines path) [] ;;
   Ok (map (fun kv => (fst kv, sorted (snd kv))) rv))%res.

(** *** [_iter_map_terms] *)

Definition _iter_map_terms : Gen Term unit :=
  (catalog <- glift ensure_list_pathways ;;
   yield_from
     (map (fun kv =>
             new_Term (mkReference KEGG_PATHWAY_PREFIX (fst kv)
                         (Some (snd kv))))
        catalog))%gen.

(** *** [_iter_genome_terms] *)

(** [i for i, e in enumerate(pathway_id) if e.isnumeric()] *)
Definition numeric_positions (pathway_id : string) : list nat :=
  map fst (filter (fun ie => isnumeric (snd ie)) (enumerate pathway_id)).

(** Lines 91 and 92: the part of the identifier from its first numeric
    character on. *)
Definition pathway_code_of (pathway_id : string) : Res string :=
  (_start <- py_min (numeric_positions pathway_id) ;;
   Ok (slice_from _start pathway_id))%res.

(** The body of [for line in list_pathway_lines]. The object bound to
    [term] is the one just stored under [terms[pathway_id]], and nothing
    else refers to it: each mutation of it is a mutation of that entry. *)
Definition listing_line (kegg_genome : KEGGGenome) (terms : dict Term)
  (line : string) : Res (dict Term) :=
  (let line := strip line in
   '(pathway_id, name) <- unpack2 (map strip (split tab line)) ;;
   let pathway_id := slice_from (String.length "path:") pathway_id in
   pathway_code <- pathway_code_of pathway_id ;;
   let terms :=
     dict_set terms pathway_id
       (new_Term (mkReference KEGG_PATHWAY_PREFIX pathway_id (Some name))) in
   let terms :=
     dict_update terms pathway_id (fun term =>
       append_relationship term species_specific
         (mkReference KEGG_PATHWAY_PREFIX ("map" ++ pathway_code)%string
            None)) in
   let terms :=
     dict_update terms pathway_id (fun term =>
       append_relationship term from_kegg_species
         (get_reference kegg_genome)) in
   let terms :=
     match taxonomy_id kegg_genome with
     | Some taxonomy =>
         dict_update terms pathway_id (fun term => set_species term taxonomy)
     | None => terms
     end in
   Ok terms)%res.

(** The body of [for protein_id in protein_ids], with [term] the result
    of [terms.get(pathway_id)]: on [None] the method call raises. *)
Definition attach_protein (pathway_id : string) (term : option Term)
  (terms : dict Term) (protein_id : string) : Res (dict Term) :=
  match term with
  | None => Raise (AttributeError "append_relationship")
  | Some _ =>
      Ok (dict_update terms pathway_id (fun term =>
            append_relationship term has_part
              (mkReference "kegg.genes" protein_id None)))
  end.

(** The body of [for pathway_id, protein_ids in ... .items()]. *)
Definition merge_item (terms : dict Term) (item : string * list string)
  : Gen Term (dict Term) :=
  (let '(pathway_id, protein_ids) := item in
   let term := dict_get terms pathway_id in
   _ <- match term with
        | None => tqdm_write ("could not find kegg.pathway:" ++ pathway_id)%string
        | Some _ => gret tt
        end ;;
   glift (for_each (attach_protein pathway_id term) protein_ids terms))%gen.

Definition _iter_genome_terms (list_pathway_path link_pathway_path : string)
  (kegg_genome : KEGGGenome) : Gen Term unit :=
  (let terms : dict Term := [] in
   let list_pathway_lines := map strip (open_lines list_pathway_path) in
   terms <- glift (for_each (listing_line kegg_genome) list_pathway_lines
                     terms) ;;
   link_map <- glift (_get_link_pathway_map link_pathway_path) ;;
   terms <- gfor_each merge_item link_map terms ;;
   yield_from (values terms))%gen.

(** *** [iter_kegg_pathway_paths] *)

(** The message of lines 134 to 138. *)
Definition download_error_message (kegg_genome : KEGGGenome) (code : Z)
  (url : string) : string :=
  (let msg :=
     "[HTTP " ++ str_of_int code ++ "] Error downloading "
     ++ genome_identifier kegg_genome ++ " (" ++ genome_name kegg_genome in
   match taxonomy_id kegg_genome with
   | None => msg ++ "): " ++ url
   | Some taxonomy => msg ++ "; taxonomy:" ++ taxonomy ++ "): " ++ url
   end)%string.

(** The two calls inside [try]. *)
Definition fetch_paths (kegg_genome : KEGGGenome) : Res (string * string) :=
  (list_pathway_path <-
     ensure_list_pathway_genome (genome_identifier kegg_genome) ;;
   link_pathway_path <-
     ensure_link_pathway_genome (genome_identifier kegg_genome) ;;
   Ok (list_pathway_path, link_pathway_path))%res.

(** The body of [for kegg_genome in iter_kegg_genomes()]: only an
    [HTTPError] is caught. *)
Definition paths_of_genome (kegg_genome : KEGGGenome)
  : Gen (KEGGGenome * string * string) unit :=
  match fetch_paths kegg_genome with
  | Raise (HTTPError code url) =>
      if negb (code =? 404)%Z
      then tqdm_write (download_error_message kegg_genome code url)
      else gret tt
  | Raise e => glift (Raise e)
  | Ok (list_pathway_path, link_pathway_path) =>
      yield (kegg_genome, list_pathway_path, link_pathway_path)
  end.

Definition iter_kegg_pathway_paths : Gen (KEGGGenome * string * string) unit :=
  gfor_each (fun _ => paths_of_genome) iter_kegg_genomes tt.

(** *** [iter_terms] *)

Definition iter_terms : Gen Term unit :=
  (_ <- _iter_map_terms ;;
   gfor_gen iter_kegg_pathway_paths
     (fun '(kegg_genome, list_pathway_path, link_pathway_path) =>
        _iter_genome_terms list_pathway_path link_pathway_path kegg_genome)
  )%gen.

(** ** Vocabulary of the statements *)

(** The characters of a string, in order. *)
Definition chars (s : string) : list ascii := list_ascii_of_string s.

(** [sub] occurs in [s]. *)
Definition contains (sub s : string) : Prop :=
  exists a b, s = (a ++ sub ++ b)%string.

(** The (stripped) pathway code a line of the link table is filed under,
    when the line has its two fields. *)
Definition link_key (line : string) : option string :=
  match unpack2 (split tab (strip line)) with
  | Ok (_, pathway) => Some (slice_from (String.length "path:") pathway)
  | Raise _ => None
  end.

(** The (stripped) pathway code and the name a line of the listing has,
    when the line has its two fields. *)
Definition listing_entry (line : string) : option (string * string) :=
  match unpack2 (map strip (split tab (strip line))) with
  | Ok (pathway_id, name) =>
      Some (slice_from (String.length "path:") pathway_id, name)
  | Raise _ => None
  end.

(** The Term a listing line leaves under its code once lines 94 to 110
    have run. *)
Definition listed_term (kegg_genome : KEGGGenome)
  (pathway_id name pathway_code : string) : Term :=
  mkTerm (mkReference KEGG_PATHWAY_PREFIX pathway_id (Some name))
    [(species_specific,
      mkReference KEGG_PATHWAY_PREFIX ("map" ++ pathway_code)%string None);
     (from_kegg_species, get_reference kegg_genome)]
    (taxonomy_id kegg_genome).

(** The [has_part] edges one pass of the inner loop appends. *)
Definition part_edges (protein_ids : list string)
  : list (TypeDef * Reference) :=
  map (fun protein_id => (has_part, mkReference "kegg.genes" protein_id None))
    protein_ids.

(** A Term with further edges appended. *)
Definition append_edges (t : Term) (es : list (TypeDef * Reference)) : Term :=
  mkTerm (reference t) (relationships t ++ es) (species t).

(** All the values filed under [k] in the items of a link map. *)
Definition parts_for (link_map : dict (list string)) (k : string)
  : list string :=
  flat_map (fun kv => if String.eqb (fst kv) k then snd kv else []) link_map.

(** One entry of [terms] after the inner loop has run for the item
    [(k, protein_ids)] of the link map. *)
Definition add_parts (k : string) (protein_ids : list string)
  (kt : string * Term) : string * Term :=
  (fst kt,
   if String.eqb (fst kt) k
   then append_edges (snd kt) (part_edges protein_ids)
   else snd kt).

(** [terms] after the merge step has run for all of [link_map]. *)
Definition merged (link_map : dict (list string)) (terms : dict Term)
  : dict Term :=
  map (fun kt =>
         (fst kt,
          append_edges (snd kt) (part_edges (parts_for link_map (fst kt)))))
    terms.

(** What the driver yields for one genome, and what it writes. *)
Definition fetched (g : KEGGGenome) : list (KEGGGenome * string * string) :=
  match fetch_paths g with
  | Ok (list_pathway_path, link_pathway_path) =>
      [(g, list_pathway_path, link_pathway_path)]
  | Raise _ => []
  end.

Definition reported (g : KEGGGenome) : list string :=
  match fetch_paths g with
  | Raise (HTTPError code url) =>
      if (code =? 404)%Z then [] else [download_error_message g code url]
  | _ => []
  end.

(** The Terms of one triple of the driver. *)
Definition genome_terms (x : KEGGGenome * string * string) : list Term :=
  let '(kegg_genome, list_pathway_path, link_pathway_path) := x in
  yielded
    (fst (_iter_genome_terms list_pathway_path link_pathway_path kegg_genome)).

(** [name] is the name on the last of [lines] whose code is [k]. *)
Definition last_listed (lines : list string) (k name : string) : Prop :=
  exists l1 line l2,
    lines = l1 ++ line :: l2
    /\ listing_entry line = Some (k, name)
    /\ forall line' name',
        In line' l2 -> listing_entry line' <> Some (k, name').

(** How many of [lines] are filed under the pathway code [k]. *)
Definition link_count (lines : list string) (k : string) : nat :=
  List.length
    (filter (fun line =>
               match link_key line with
               | Some k' => String.eqb k' k
               | None => false
               end) lines).

(** The generator expression of line 91 with [enumerate] counting from
    [i]. *)
Definition positions_from (i : nat) (s : string) : list nat :=
  map fst (filter (fun ie => isnumeric (snd ie)) (enumerate_from i s)).

(** ** Vocabulary of the further properties *)

(** The distinct elements of a list, each at the place of its first
    occurrence: the order of the keys of a dict filled in that order. *)
Fixpoint first_occurrences (l : list string) : list string :=
  match l with
  | [] => []
  | x :: r => x :: filter (fun y => negb (String.eqb y x)) (first_occurrences r)
  end.

(** [y] is not among [seen]. *)
Definition fresh (seen : list string) (y : string) : bool :=
  negb (existsb (String.eqb y) seen).

(** The pathway codes of the lines of a listing that have their two fields,
    in the order of the lines; the same for a link table. *)
Definition listing_codes (lines : list string) : list string :=
  flat_map (fun line =>
              match listing_entry line with
              | Some (k, _) => [k]
              | None => []
              end) lines.

Definition link_codes (lines : list string) : list string :=
  flat_map (fun line =>
              match link_key line with
              | Some k => [k]
              | None => []
              end) lines.

(** A listing line that lines 88 to 92 accept: two fields, and a numeric
    character in the stripped code. *)
Definition listing_ok (line : string) : Prop :=
  exists k name code,
    listing_entry line = Some (k, name) /\ pathway_code_of k = Ok code.

(** What [iter_terms] runs for one triple of the driver. *)
Definition genome_run (x : KEGGGenome * string * string) : Gen Term unit :=
  let '(kegg_genome, list_pathway_path, link_pathway_path) := x in
  _iter_genome_terms list_pathway_path link_pathway_path kegg_genome.

(** The line of line 115. *)
Definition unresolved_message (pathway_id : string) : string :=
  ("could not find kegg.pathway:" ++ pathway_id)%string.

(** The values of a generator that a [for] loop over it reaches: all of
    them up to the first for which the body raises, that one included; and
    the way the loop ends: by the exception of that body, or else as the
    generator ends. *)
Fixpoint reached {X Y : Type} (body : X -> Gen Y unit) (xs : list X)
  : list X :=
  match xs with
  | [] => []
  | x :: r =>
      match snd (body x) with
      | Ok _ => x :: reached body r
      | Raise _ => [x]
      end
  end.

Fixpoint ending_after {X Y : Type} (body : X -> Gen Y unit) (xs : list X)
  (ending : Res unit) : Res unit :=
  match xs with
  | [] => ending
  | x :: r =>
      match snd (body x) with
      | Ok _ => ending_after body r ending
      | Raise e => Raise e
      end
  end.

(** A string of white space only, and a string with no tab. *)
Definition all_space (s : string) : bool := forallb isspace (chars s).
Definition no_tab (s : string) : bool :=
  negb (existsb (Ascii.eqb tab) (chars s)).

(** How the run goes for one genome of the driver: the way
    [_iter_genome_terms] ends when the two files are fetched; well when the
    fetch raises an [HTTPError], which the driver catches; and by the
    exception of the fetch otherwise. *)
Definition genome_outcome (g : KEGGGenome) : Res unit :=
  match fetch_paths g with
  | Ok (list_pathway_path, link_pathway_path) =>
      snd (_iter_genome_terms list_pathway_path link_pathway_path g)
  | Raise (HTTPError _ _) => Ok tt
  | Raise e => Raise e
  end.

(** ** Strings *)

Lemma isdigit_isnumeric (c : ascii) : isdigit c = true -> isnumeric c = true.
Proof.
  unfold isdigit, isnumeric. cbv zeta. intros H. rewrite H. reflexivity.
Qed.

Lemma append_nil_r (s : string) : (s ++ "")%string = s.
Proof. induction s as [|c s IH]; simpl; [reflexivity | now rewrite IH]. Qed.

Lemma append_assoc (a b c : string) :
  ((a ++ b) ++ c)%string = (a ++ (b ++ c))%string.
Proof. induction a as [|x a IH]; simpl; [reflexivity | now rewrite IH]. Qed.

Lemma slice_from_append (a b : string) :
  slice_from (String.length a) (a ++ b) = b.
Proof. induction a as [|c a IH]; simpl; [now destruct b | exact IH]. Qed.

Lemma slice_from_short (n : nat) (s : string) :
  String.length s <= n -> slice_from n s = "".
Proof.
  revert s. induction n as [|n IH]; intros [|c s]; simpl; intros H;
    try reflexivity; try lia.
  apply IH. lia.
Qed.

Lemma slice_to_from (n : nat) (s : string) :
  (slice_to n s ++ slice_from n s)%string = s.
Proof.
  revert s. induction n as [|n IH]; intros [|c s]; simpl; try reflexivity.
  now rewrite IH.
Qed.

Lemma slice_to_length (n : nat) (s : string) :
  String.length (slice_to n s) = Nat.min n (String.length s).
Proof.
  revert s. induction n as [|n IH]; intros [|c s]; simpl; try reflexivity.
  now rewrite IH.
Qed.

Lemma slice_from_length (n : nat) (s : string) :
  String.length (slice_from n s) = String.length s - n.
Proof.
  revert s. induction n as [|n IH]; intros [|c s]; simpl; try reflexivity.
  apply IH.
Qed.

(** ** The first numeric character *)

Lemma fold_min_lower (l : list nat) (x : nat) :
  (forall y, In y l -> x <= y) -> fold_left Nat.min l x = x.
Proof.
  induction l as [|a l IH]; simpl; intros H; [reflexivity|].
  rewrite Nat.min_l by (apply H; now left).
  apply IH. intros y Hy. apply H. now right.
Qed.

Lemma positions_from_ge (s : string) :
  forall i y, In y (positions_from i s) -> i <= y.
Proof.
  unfold positions_from.
  induction s as [|c s IH]; simpl; intros i y H; [contradiction|].
  destruct (isnumeric c); simpl in H.
  - destruct H as [<- | H]; [lia|]. apply IH in H. lia.
  - apply IH in H. lia.
Qed.

Lemma positions_from_skip (before : string) :
  forall i rest,
    existsb isnumeric (chars before) = false ->
    positions_from i (before ++ rest)
    = positions_from (i + String.length before) rest.
Proof.
  unfold positions_from, chars.
  induction before as [|c b IH]; simpl; intros i rest H.
  - now rewrite Nat.add_0_r.
  - apply orb_false_iff in H. destruct H as [Hc Hb]. rewrite Hc.
    rewrite IH by exact Hb. f_equal. f_equal. f_equal. lia.
Qed.

Lemma positions_none (s : string) :
  forall i, existsb isnumeric (chars s) = false -> positions_from i s = [].
Proof.
  intros i H. rewrite <- (append_nil_r s).
  rewrite positions_from_skip by exact H. reflexivity.
Qed.

(** Every string with a numeric character splits at the first one. *)
Lemma first_numeric_split (s : string) :
  existsb isnumeric (chars s) = true ->
  exists before c rest,
    s = (before ++ String c rest)%string
    /\ existsb isnumeric (chars before) = false
    /\ isnumeric c = true.
Proof.
  unfold chars. induction s as [|c s IH]; simpl; intros H; [discriminate|].
  destruct (isnumeric c) eqn:Hc.
  - exists "", c, s. simpl. auto.
  - simpl in H. destruct (IH H) as (b & c' & r & -> & Hb & Hc').
    exists (String c b), c', r. simpl. rewrite Hc. auto.
Qed.

Lemma pathway_code_of_split (before : string) (c : ascii) (rest : string) :
  existsb isnumeric (chars before) = false ->
  isnumeric c = true ->
  pathway_code_of (before ++ String c rest) = Ok (String c rest).
Proof.
  intros Hb Hc. unfold pathway_code_of, numeric_positions, enumerate.
  fold (positions_from 0 (before ++ String c rest)).
  rewrite positions_from_skip by exact Hb.
  unfold positions_from at 1. simpl enumerate_from. simpl filter.
  rewrite Hc. simpl map. simpl py_min.
  rewrite fold_min_lower.
  - simpl. now rewrite slice_from_append.
  - intros y Hy. apply positions_from_ge in Hy. lia.
Qed.

Lemma pathway_code_of_none (p : string) :
  existsb isnumeric (chars p) = false ->
  pathway_code_of p = Raise (ValueError MinEmptySequence).
Proof.
  intros H. unfold pathway_code_of, numeric_positions, enumerate.
  fold (positions_from 0 p). now rewrite positions_none.
Qed.

Lemma pathway_code_of_ok (p code : string) :
  pathway_code_of p = Ok code ->
  exists before c rest,
    p = (before ++ code)%string /\ code = String c rest
    /\ existsb isnumeric (chars before) = false /\ isnumeric c = true.
Proof.
  intros H. destruct (existsb isnumeric (chars p)) eqn:E.
  - destruct (first_numeric_split p E) as (b & c & r & -> & Hb & Hc).
    rewrite pathway_code_of_split in H by assumption.
    injection H as <-. exists b, c, r. auto.
  - rewrite pathway_code_of_none in H by exact E. discriminate.
Qed.

(** ** [strip] is idempotent *)

Lemma rstrip_idem (s : string) : rstrip (rstrip s) = rstrip s.
Proof.
  induction s as [|c s IH]; simpl; [reflexivity|].
  destruct (rstrip s) as [|d r] eqn:E.
  - destruct (isspace c) eqn:Hc; simpl; [reflexivity | now rewrite Hc].
  - change (rstrip (String c (String d r)))
      with (match rstrip (String d r) with
            | EmptyString =>
                if isspace c then EmptyString else String c EmptyString
            | r' => String c r'
            end).
    now rewrite IH.
Qed.

Lemma lstrip_start (s : string) :
  match lstrip s with String c _ => isspace c = false | EmptyString => True end.
Proof.
  induction s as [|c s IH]; simpl; [exact I|].
  destruct (isspace c) eqn:Hc; [exact IH | exact Hc].
Qed.

Lemma lstrip_rstrip_start (s : string) :
  match s with String c _ => isspace c = false | EmptyString => True end ->
  lstrip (rstrip s) = rstrip s.
Proof.
  destruct s as [|c s]; simpl; [reflexivity|]. intros Hc.
  destruct (rstrip s); rewrite ?Hc; simpl; now rewrite Hc.
Qed.

Lemma strip_idem (s : string) : strip (strip s) = strip s.
Proof.
  unfold strip.
  rewrite (lstrip_rstrip_start (lstrip s)) by apply lstrip_start.
  apply rstrip_idem.
Qed.

(** ** Dicts *)

Lemma dict_get_set_same {V : Type} (d : dict V) (k : string) (v : V) :
  dict_get (dict_set d k v) k = Some v.
Proof.
  induction d as [|[k' v'] d IH]; simpl.
  - now rewrite String.eqb_refl.
  - destruct (String.eqb k' k) eqn:E; simpl; rewrite E; [reflexivity | exact IH].
Qed.

Lemma dict_get_set_other {V : Type} (d : dict V) (k k' : string) (v : V) :
  k <> k' -> dict_get (dict_set d k v) k' = dict_get d k'.
Proof.
  intros Hne. induction d as [|[k0 v0] d IH]; simpl.
  - apply String.eqb_neq in Hne. now rewrite Hne.
  - destruct (String.eqb k0 k) eqn:E; simpl.
    + apply String.eqb_eq in E. subst k0.
      apply String.eqb_neq in Hne. now rewrite Hne.
    + now rewrite IH.
Qed.

Lemma dict_update_set {V : Type} (d : dict V) (k : string) (v : V)
  (f : V -> V) :
  dict_update (dict_set d k v) k f = dict_set d k (f v).
Proof.
  induction d as [|[k' v'] d IH]; simpl.
  - now rewrite String.eqb_refl.
  - destruct (String.eqb k' k) eqn:E; simpl; rewrite E;
      [reflexivity | now rewrite IH].
Qed.

Lemma dict_get_In {V : Type} (d : dict V) (k : string) (v : V) :
  dict_get d k = Some v -> In (k, v) d.
Proof.
  induction d as [|[k' v'] d IH]; simpl; [discriminate|].
  destruct (String.eqb k' k) eqn:E.
  - apply String.eqb_eq in E. intros [= ->]. left. now subst.
  - intros H. right. now apply IH.
Qed.

Lemma dict_get_None {V : Type} (d : dict V) (k : string) :
  dict_get d k = None <-> ~ In k (keys d).
Proof.
  unfold keys. induction d as [|[k' v'] d IH]; simpl.
  - split; [intros _ [] | reflexivity].
  - destruct (String.eqb k' k) eqn:E.
    + apply String.eqb_eq in E. split; [discriminate | intros H; exfalso; auto].
    + apply String.eqb_neq in E. rewrite IH. split.
      * intros H [H' | H']; [now apply E | now apply H].
      * intros H H'. apply H. now right.
Qed.

Lemma In_dict_get {V : Type} (d : dict V) (k : string) (v : V) :
  NoDup (keys d) -> In (k, v) d -> dict_get d k = Some v.
Proof.
  unfold keys. induction d as [|[k' v'] d IH]; simpl; [intros _ []|].
  intros Hnd [H | H]; inversion Hnd as [|? ? Hnot Hnd']; subst.
  - injection H as -> ->. now rewrite String.eqb_refl.
  - destruct (String.eqb k' k) eqn:E.
    + apply String.eqb_eq in E. subst. exfalso. apply Hnot.
      change k with (fst (k, v)). now apply in_map.
    + now apply IH.
Qed.

Lemma keys_dict_set {V : Type} (d : dict V) (k : string) (v : V) :
  keys (dict_set d k v)
  = match dict_get d k with Some _ => keys d | None => keys d ++ [k] end.
Proof.
  unfold keys. induction d as [|[k' v'] d IH]; simpl; [reflexivity|].
  destruct (String.eqb k' k) eqn:E; simpl; [reflexivity|].
  rewrite IH. now destruct (dict_get d k).
Qed.

Lemma NoDup_snoc {A : Type} (l : list A) (x : A) :
  NoDup l -> ~ In x l -> NoDup (l ++ [x]).
Proof.
  intros Hl Hx. induction Hl as [|a l Ha Hl IH]; simpl.
  - constructor; [intros [] | constructor].
  - constructor.
    + rewrite in_app_iff. simpl. intros [H | [H | []]]; [now apply Ha|].
      subst. apply Hx. now left.
    + apply IH. intros H. apply Hx. now right.
Qed.

Lemma NoDup_keys_dict_set {V : Type} (d : dict V) (k : string) (v : V) :
  NoDup (keys d) -> NoDup (keys (dict_set d k v)).
Proof.
  intros H. rewrite keys_dict_set. destruct (dict_get d k) eqn:E; [exact H|].
  apply NoDup_snoc; [exact H | now apply dict_get_None].
Qed.

Lemma In_keys_dict_set {V : Type} (d : dict V) (k k' : string) (v : V) :
  In k' (keys (dict_set d k v)) <-> In k' (keys d) \/ k' = k.
Proof.
  rewrite keys_dict_set. destruct (dict_get d k) eqn:E.
  - split; [now left|]. intros [H | ->]; [exact H|].
    apply dict_get_In in E. change k with (fst (k, v0)).
    now apply in_map.
  - rewrite in_app_iff. simpl. split.
    + intros [H | [H | []]]; [now left | right; now symmetry].
    + intros [H | H]; [now left | right; left; now symmetry].
Qed.

(** ** The listing loop *)

Lemma listing_line_eq (g : KEGGGenome) (terms : dict Term) (line : string) :
  listing_line g terms line
  = match unpack2 (map strip (split tab (strip line))) with
    | Ok (pathway_id, name) =>
        let k := slice_from (String.length "path:") pathway_id in
        match pathway_code_of k with
        | Ok code => Ok (dict_set terms k (listed_term g k name code))
        | Raise e => Raise e
        end
    | Raise e => Raise e
    end.
Proof.
  unfold listing_line.
  destruct (unpack2 _) as [[pathway_id name]|e]; simpl; [|reflexivity].
  destruct (pathway_code_of _) as [code|e]; simpl; [|reflexivity].
  rewrite !dict_update_set. unfold listed_term, new_Term, append_relationship.
  simpl. destruct (taxonomy_id g) as [taxonomy|]; simpl.
  - now rewrite dict_update_set.
  - reflexivity.
Qed.

Lemma listing_line_ok (g : KEGGGenome) (terms terms' : dict Term)
  (line : string) :
  listing_line g terms line = Ok terms' ->
  exists k name code,
    listing_entry line = Some (k, name)
    /\ pathway_code_of k = Ok code
    /\ terms' = dict_set terms k (listed_term g k name code).
Proof.
  rewrite listing_line_eq. unfold listing_entry.
  destruct (unpack2 _) as [[pathway_id name]|e]; [|discriminate].
  cbv zeta. destruct (pathway_code_of _) as [code|e] eqn:E; [|discriminate].
  intros [= <-]. do 3 eexists. split; [reflexivity|]. split; [exact E|].
  reflexivity.
Qed.

(** Whether a listing line raises does not depend on the Terms so far. *)
Lemma listing_line_raise (g : KEGGGenome) (terms terms' : dict Term)
  (line : string) (e : exn) :
  listing_line g terms line = Raise e -> listing_line g terms' line = Raise e.
Proof.
  rewrite !listing_line_eq.
  destruct (unpack2 _) as [[pathway_id name]|e']; [|trivial].
  cbv zeta. destruct (pathway_code_of _); [discriminate | trivial].
Qed.

Lemma for_each_raise {X S : Type} (body : S -> X -> Res S) (xs : list X) :
  forall (x : X) (s : S),
    In x xs ->
    (forall s', exists e, body s' x = Raise e) ->
    exists e, for_each body xs s = Raise e.
Proof.
  induction xs as [|y xs IH]; simpl; intros x s Hin Hx; [contradiction|].
  destruct Hin as [-> | Hin].
  - destruct (Hx s) as [e He]. rewrite He. simpl. eauto.
  - destruct (body s y) as [s1|e]; simpl; [eauto | eauto].
Qed.

Lemma listing_loop (g : KEGGGenome) (lines : list string) :
  forall terms0 terms,
    for_each (listing_line g) lines terms0 = Ok terms ->
    NoDup (keys terms0) ->
    NoDup (keys terms)
    /\ (forall k t,
           dict_get terms k = Some t ->
           (exists name code,
               last_listed lines k name
               /\ pathway_code_of k = Ok code
               /\ t = listed_term g k name code)
           \/ ((forall line name, In line lines ->
                                  listing_entry line <> Some (k, name))
               /\ dict_get terms0 k = Some t))
    /\ (forall line k name,
           In line lines -> listing_entry line = Some (k, name) ->
           dict_get terms k <> None)
    /\ (forall k, dict_get terms0 k <> None -> dict_get terms k <> None).
Proof.
  induction lines as [|line lines IH]; simpl; intros terms0 terms H Hnd.
  - injection H as <-. split; [exact Hnd|]. split; [|split].
    + intros k t Hk. right. split; [intros ? ? [] | exact Hk].
    + intros ? ? ? [].
    + auto.
  - destruct (listing_line g terms0 line) as [terms1|e] eqn:E;
      [simpl in H | discriminate].
    apply listing_line_ok in E. destruct E as (k1 & n1 & c1 & He & Hc & ->).
    specialize (IH _ _ H (NoDup_keys_dict_set _ _ _ Hnd)).
    destruct IH as (Hnd' & Hget & Hin & Hmono).
    split; [exact Hnd'|]. split; [|split].
    + intros k t Hk. destruct (Hget k t Hk) as [(n & c & Hl & Hc' & ->) | [Hno Hk1]].
      * left. exists n, c. split; [|auto].
        destruct Hl as (l1 & ln & l2 & -> & Hln & Hl2).
        exists (line :: l1), ln, l2. auto.
      * destruct (String.eqb k1 k) eqn:Ek.
        -- apply String.eqb_eq in Ek. subst k1.
           rewrite dict_get_set_same in Hk1. injection Hk1 as <-.
           left. exists n1, c1. split; [|auto].
           exists [], line, lines. simpl. split; [reflexivity|].
           split; [exact He|]. intros l' n' Hl'. now apply Hno.
        -- apply String.eqb_neq in Ek.
           rewrite dict_get_set_other in Hk1 by exact Ek.
           right. split; [|exact Hk1].
           intros l' n' [<- | Hl']; [|now apply Hno].
           rewrite He. intros [= -> _]. now apply Ek.
    + intros l' k n [<- | Hl'] Hl.
      * apply Hmono. rewrite He in Hl. injection Hl as <- <-.
        rewrite dict_get_set_same. discriminate.
      * eapply Hin; eauto.
    + intros k Hk. apply Hmono.
      destruct (String.eqb k1 k) eqn:Ek.
      * apply String.eqb_eq in Ek. subst. rewrite dict_get_set_same.
        discriminate.
      * apply String.eqb_neq in Ek. now rewrite dict_get_set_other.
Qed.

(** ** The order of [sorted] *)

Lemma leb_lt_or_eq (a b : string) :
  String.leb a b = true <-> String_as_OT.lt a b \/ a = b.
Proof.
  unfold String.leb. rewrite <- String_as_OT.cmp_lt, <- String_as_OT.cmp_eq.
  unfold String_as_OT.cmp.
  destruct (String.compare a b); split; intros H; try reflexivity;
    try discriminate; try (now right); try (now left).
  destruct H; discriminate.
Qed.

Lemma leb_trans (a b c : string) :
  String.leb a b = true -> String.leb b c = true -> String.leb a c = true.
Proof.
  rewrite !leb_lt_or_eq. intros [H1 | ->] [H2 | ->]; auto.
  left. eapply String_as_OT.lt_trans; eassumption.
Qed.

Lemma sorted_ascending (v : list string) :
  StronglySorted (fun a b => String.leb a b = true) (sorted v).
Proof.
  apply Sorted_StronglySorted.
  - intros a b c. apply leb_trans.
  - exact (StrSort.Sorted_sort v).
Qed.

Lemma sorted_length (v : list string) : List.length (sorted v) = List.length v.
Proof. symmetry. apply Permutation_length, StrSort.Permuted_sort. Qed.

Lemma sorted_In (v : list string) (x : string) : In x (sorted v) <-> In x v.
Proof.
  split; apply Permutation_in;
    [apply Permutation_sym|]; apply StrSort.Permuted_sort.
Qed.

(** ** The link table *)

Lemma link_line_ok (rv rv' : dict (list string)) (line : string) :
  link_line rv line = Ok rv' ->
  exists k, link_key line = Some k /\ rv' = defaultdict_append rv k k.
Proof.
  unfold link_line, link_key.
  destruct (unpack2 _) as [[protein pathway]|e]; simpl; [|discriminate].
  intros [= <-]. eauto.
Qed.

Lemma defaultdict_append_set (rv : dict (list string)) (k x : string) :
  defaultdict_append rv k x
  = dict_set rv k (match dict_get rv k with Some v => v | None => [] end
                   ++ [x]).
Proof. unfold defaultdict_append. now destruct (dict_get rv k). Qed.

(** In a dict, the values filed under [k] are the one list stored there. *)
Lemma parts_for_get (d : dict (list string)) (k : string) :
  NoDup (keys d) ->
  parts_for d k = match dict_get d k with Some v => v | None => [] end.
Proof.
  unfold parts_for, keys. induction d as [|[k' v] d IH]; simpl;
    [reflexivity|].
  intros Hnd. inversion Hnd as [|? ? Hnot Hnd']; subst.
  rewrite (IH Hnd'). destruct (String.eqb k' k) eqn:E.
  - apply String.eqb_eq in E. subst k'.
    apply dict_get_None in Hnot. rewrite Hnot. apply app_nil_r.
  - reflexivity.
Qed.

Lemma link_count_cons (line : string) (lines : list string) (k : string) :
  link_count (line :: lines) k
  = (match link_key line with
     | Some k' => if String.eqb k' k then 1 else 0
     | None => 0
     end) + link_count lines k.
Proof.
  unfold link_count. simpl. destruct (link_key line) as [k'|]; simpl;
    [|reflexivity].
  now destruct (String.eqb k' k).
Qed.

Lemma link_loop (lines : list string) :
  forall rv0 rv,
    for_each link_line lines rv0 = Ok rv ->
    NoDup (keys rv0) ->
    NoDup (keys rv)
    /\ (forall k,
           List.length (parts_for rv k)
           = List.length (parts_for rv0 k) + link_count lines k)
    /\ (forall k x, In x (parts_for rv k) ->
                    In x (parts_for rv0 k) \/ x = k)
    /\ (forall k, In k (keys rv) ->
                  In k (keys rv0) \/ 0 < link_count lines k).
Proof.
  induction lines as [|line lines IH]; simpl; intros rv0 rv H Hnd.
  - injection H as <-. split; [exact Hnd|]. split; [|split]; auto.
  - destruct (link_line rv0 line) as [rv1|e] eqn:E;
      [simpl in H | discriminate].
    apply link_line_ok in E. destruct E as (k1 & Hk1 & ->).
    rewrite defaultdict_append_set in H.
    assert (Hnd1 := NoDup_keys_dict_set rv0 k1
                      (match dict_get rv0 k1 with
                       | Some v => v
                       | None => []
                       end ++ [k1]) Hnd).
    destruct (IH _ _ H Hnd1) as (Hnd' & Hlen & Hin & Hkeys).
    split; [exact Hnd'|]. split; [|split].
    + intros k. rewrite Hlen, link_count_cons, Hk1.
      rewrite (parts_for_get _ k Hnd1), (parts_for_get _ k Hnd).
      destruct (String.eqb k1 k) eqn:Ek.
      * apply String.eqb_eq in Ek. subst k1. rewrite dict_get_set_same.
        rewrite length_app. simpl. lia.
      * apply String.eqb_neq in Ek.
        rewrite dict_get_set_other by exact Ek. lia.
    + intros k x Hx. destruct (Hin k x Hx) as [Hx1 | ->]; [|now right].
      rewrite (parts_for_get _ k Hnd1) in Hx1.
      rewrite (parts_for_get _ k Hnd).
      destruct (String.eqb k1 k) eqn:Ek.
      * apply String.eqb_eq in Ek. subst k1.
        rewrite dict_get_set_same in Hx1. apply in_app_iff in Hx1.
        destruct Hx1 as [Hx1 | [<- | []]]; [now left | now right].
      * apply String.eqb_neq in Ek.
        rewrite dict_get_set_other in Hx1 by exact Ek. now left.
    + intros k Hk. rewrite link_count_cons, Hk1.
      destruct (Hkeys k Hk) as [Hk' | Hk']; [|right; lia].
      apply In_keys_dict_set in Hk'. destruct Hk' as [Hk' | ->];
        [now left|].
      right. rewrite String.eqb_refl. lia.
Qed.

Lemma parts_for_sorted (rv : dict (list string)) (k : string) :
  NoDup (keys rv) ->
  parts_for (map (fun kv => (fst kv, sorted (snd kv))) rv) k
  = match dict_get rv k with Some v => sorted v | None => [] end.
Proof.
  unfold parts_for, keys. induction rv as [|[k' v] rv IH]; simpl;
    [reflexivity|].
  intros Hnd. inversion Hnd as [|? ? Hnot Hnd']; subst.
  rewrite (IH Hnd'). destruct (String.eqb k' k) eqn:E.
  - apply String.eqb_eq in E. subst k'.
    apply dict_get_None in Hnot. rewrite Hnot. apply app_nil_r.
  - reflexivity.
Qed.

(** ** Events *)

Lemma yielded_app {Y : Type} (a b : list (event Y)) :
  yielded (a ++ b) = yielded a ++ yielded b.
Proof.
  induction a as [|[y|m] a IH]; simpl; [reflexivity | now rewrite IH | exact IH].
Qed.

Lemma written_app {Y : Type} (a b : list (event Y)) :
  written (a ++ b) = written a ++ written b.
Proof.
  induction a as [|[y|m] a IH]; simpl; [reflexivity | exact IH | now rewrite IH].
Qed.

Lemma yielded_map_Yield {Y : Type} (l : list Y) : yielded (map Yield l) = l.
Proof. induction l as [|y l IH]; simpl; [reflexivity | now rewrite IH]. Qed.

(** ** The merge step *)

Lemma append_edges_nil (t : Term) : append_edges t [] = t.
Proof. destruct t. unfold append_edges. simpl. now rewrite app_nil_r. Qed.

Lemma append_edges_app (t : Term) (a b : list (TypeDef * Reference)) :
  append_edges (append_edges t a) b = append_edges t (a ++ b).
Proof. unfold append_edges. simpl. now rewrite app_assoc. Qed.

Lemma dict_update_map {V : Type} (d : dict V) (k : string) (f : V -> V) :
  NoDup (keys d) ->
  dict_update d k f
  = map (fun kv => (fst kv, if String.eqb (fst kv) k then f (snd kv)
                            else snd kv)) d.
Proof.
  unfold keys. induction d as [|[k' v] d IH]; simpl; [reflexivity|].
  intros Hnd. inversion Hnd as [|? ? Hnot Hnd']; subst.
  destruct (String.eqb k' k) eqn:E.
  - f_equal. apply String.eqb_eq in E. subst k'.
    clear IH Hnd Hnd'. induction d as [|[k1 v1] d IH]; simpl; [reflexivity|].
    simpl in Hnot. destruct (String.eqb k1 k) eqn:E1.
    + apply String.eqb_eq in E1. exfalso. apply Hnot. now left.
    + f_equal. apply IH. intros H. apply Hnot. now right.
  - f_equal. now apply IH.
Qed.

Lemma keys_add_parts (k : string) (vs : list string) (terms : dict Term) :
  keys (map (add_parts k vs) terms) = keys terms.
Proof. unfold keys. rewrite map_map. reflexivity. Qed.

Lemma attach_loop (k : string) (t0 : Term) (vs : list string) :
  forall terms,
    NoDup (keys terms) ->
    for_each (attach_protein k (Some t0)) vs terms
    = Ok (map (add_parts k vs) terms).
Proof.
  induction vs as [|x vs IH]; simpl; intros terms Hnd.
  - f_equal. rewrite <- (map_id terms) at 1. apply map_ext.
    intros [k' t]. unfold add_parts. simpl.
    rewrite append_edges_nil. now destruct (String.eqb k' k).
  - rewrite dict_update_map by exact Hnd.
    match goal with
    | |- for_each _ _ ?d = _ =>
        change d with (map (add_parts k [x]) terms)
    end.
    rewrite IH by (now rewrite keys_add_parts).
    f_equal. rewrite map_map. apply map_ext.
    intros [k' t]. unfold add_parts. simpl.
    destruct (String.eqb k' k); [|reflexivity].
    now rewrite append_edges_app.
Qed.

Lemma merge_item_spec (terms : dict Term) (k : string) (vs : list string) :
  NoDup (keys terms) ->
  yielded (fst (merge_item terms (k, vs))) = []
  /\ forall terms',
      snd (merge_item terms (k, vs)) = Ok terms' ->
      terms' = map (add_parts k vs) terms.
Proof.
  intros Hnd. unfold merge_item.
  destruct (dict_get terms k) as [t0|] eqn:E.
  - rewrite attach_loop by exact Hnd. simpl. split; [reflexivity|].
    now intros ? [= <-].
  - destruct vs as [|x vs]; simpl; split; try reflexivity;
      try discriminate.
    intros ? [= <-]. rewrite <- (map_id terms) at 1. apply map_ext.
    intros [k' t]. unfold add_parts. simpl.
    rewrite append_edges_nil. now destruct (String.eqb k' k).
Qed.

Lemma merged_cons (k : string) (vs : list string)
  (items : dict (list string)) (terms : dict Term) :
  merged items (map (add_parts k vs) terms) = merged ((k, vs) :: items) terms.
Proof.
  unfold merged. rewrite map_map. apply map_ext. intros [k' t].
  unfold add_parts, parts_for, part_edges. simpl. f_equal.
  rewrite String.eqb_sym. destruct (String.eqb k k').
  - rewrite append_edges_app. now rewrite map_app.
  - reflexivity.
Qed.

Lemma merge_loop (items : dict (list string)) :
  forall terms,
    NoDup (keys terms) ->
    yielded (fst (gfor_each merge_item items terms)) = []
    /\ forall terms',
        snd (gfor_each merge_item items terms) = Ok terms' ->
        terms' = merged items terms.
Proof.
  induction items as [|[k vs] items IH]; intros terms Hnd.
  - simpl. split; [reflexivity|]. intros ? [= <-].
    unfold merged. rewrite <- (map_id terms) at 1. apply map_ext.
    intros [k' t]. simpl. now rewrite append_edges_nil.
  - change (gfor_each merge_item ((k, vs) :: items) terms)
      with (gbind (merge_item terms (k, vs)) (gfor_each merge_item items)).
    destruct (merge_item_spec terms k vs Hnd) as [Hy Hok].
    destruct (merge_item terms (k, vs)) as [es [terms1|e]]; simpl in *.
    + specialize (Hok _ eq_refl). subst terms1.
      destruct (IH (map (add_parts k vs) terms)) as [Hy' Hok'];
        [now rewrite keys_add_parts|].
      destruct (gfor_each merge_item items _) as [es' r]. simpl in *.
      split; [now rewrite yielded_app, Hy, Hy'|].
      intros terms' H. rewrite (Hok' _ H). apply merged_cons.
    + split; [exact Hy | discriminate].
Qed.

(** ** What [_iter_genome_terms] yields *)

Lemma listing_entry_strip (line : string) :
  listing_entry (strip line) = listing_entry line.
Proof. unfold listing_entry. now rewrite strip_idem. Qed.

Lemma last_listed_strip (lines : list string) (k name : string) :
  last_listed (map strip lines) k name <-> last_listed lines k name.
Proof.
  unfold last_listed. split.
  - intros (l1 & line & l2 & Heq & He & Hl2).
    apply map_eq_app in Heq. destruct Heq as (r1 & r2 & -> & <- & Heq).
    apply map_eq_cons in Heq. destruct Heq as (raw & r3 & -> & <- & <-).
    exists r1, raw, r3. split; [reflexivity|].
    rewrite listing_entry_strip in He. split; [exact He|].
    intros l' n' Hin. rewrite <- listing_entry_strip.
    apply Hl2. now apply in_map.
  - intros (l1 & line & l2 & -> & He & Hl2).
    exists (map strip l1), (strip line), (map strip l2).
    rewrite map_app. split; [reflexivity|].
    rewrite listing_entry_strip. split; [exact He|].
    intros l' n' Hin. apply in_map_iff in Hin.
    destruct Hin as (raw & <- & Hin). rewrite listing_entry_strip.
    now apply Hl2.
Qed.

(** The two ways [_iter_genome_terms] ends: every Term of the listing,
    with the parts the link map files under its code, or an exception
    before anything is yielded. *)
Lemma genome_terms_cases (list_path link_path : string) (g : KEGGGenome) :
  (exists terms rv es,
      for_each (listing_line g) (map strip (open_lines list_path)) []
      = Ok terms
      /\ for_each link_line (open_lines link_path) [] = Ok rv
      /\ _iter_genome_terms list_path link_path g = (es, Ok tt)
      /\ yielded es
         = values (merged (map (fun kv => (fst kv, sorted (snd kv))) rv)
                     terms))
  \/ (exists es e,
         _iter_genome_terms list_path link_path g = (es, Raise e)
         /\ yielded es = []).
Proof.
  unfold _iter_genome_terms, _get_link_pathway_map.
  destruct (for_each (listing_line g) _ []) as [terms|e] eqn:El;
    [|right; simpl; eauto].
  destruct (for_each link_line _ []) as [rv|e] eqn:Ek;
    [|right; simpl; eauto].
  assert (Hnd : NoDup (keys terms)).
  { apply (listing_loop g _ _ _ El). constructor. }
  destruct (merge_loop (map (fun kv => (fst kv, sorted (snd kv))) rv)
              terms Hnd) as [Hy Hok].
  simpl.
  destruct (gfor_each merge_item _ terms) as [es [terms'|e]]; simpl in *.
  - left. exists terms, rv. eexists. repeat split.
    rewrite yielded_app, Hy, yielded_map_Yield. simpl.
    now rewrite (Hok _ eq_refl).
  - right. eauto.
Qed.

Lemma genome_terms_member (list_path link_path : string) (g : KEGGGenome)
  (t : Term) :
  In t (yielded (fst (_iter_genome_terms list_path link_path g))) ->
  exists k name code rv,
    last_listed (open_lines list_path) k name
    /\ pathway_code_of k = Ok code
    /\ for_each link_line (open_lines link_path) [] = Ok rv
    /\ NoDup (keys rv)
    /\ t = append_edges (listed_term g k name code)
             (part_edges
                (match dict_get rv k with
                 | Some v => sorted v
                 | None => []
                 end)).
Proof.
  destruct (genome_terms_cases list_path link_path g)
    as [(terms & rv & es & El & Ek & -> & Hy) | (es & e & -> & Hy)];
    simpl; rewrite Hy; [|contradiction].
  intros Hin. unfold values, merged in Hin. rewrite map_map in Hin.
  apply in_map_iff in Hin. destruct Hin as ([k t0] & <- & Hin). simpl.
  destruct (listing_loop g _ _ _ El (NoDup_nil _)) as (Hnd & Hget & _).
  apply (In_dict_get _ _ _ Hnd) in Hin.
  destruct (Hget k t0 Hin) as [(n & c & Hl & Hc & ->) | [_ Hno]];
    [|discriminate].
  destruct (link_loop _ _ _ Ek (NoDup_nil _)) as (Hndk & _).
  exists k, n, c, rv. rewrite last_listed_strip in Hl.
  rewrite parts_for_sorted by exact Hndk. auto.
Qed.

Lemma targets_append_edges (typedef : TypeDef) (t : Term)
  (es : list (TypeDef * Reference)) :
  targets typedef (append_edges t es)
  = targets typedef t
    ++ map snd (filter (fun e => TypeDef_eqb (fst e) typedef) es).
Proof.
  unfold targets, append_edges. simpl. now rewrite filter_app, map_app.
Qed.

Lemma targets_part_edges (typedef : TypeDef) (vs : list string) :
  map snd (filter (fun e => TypeDef_eqb (fst e) typedef) (part_edges vs))
  = if TypeDef_eqb has_part typedef
    then map (fun x => mkReference "kegg.genes" x None) vs
    else [].
Proof.
  unfold part_edges.
  induction vs as [|x vs IH]; destruct typedef; simpl in *;
    try reflexivity; try exact IH.
  now rewrite IH.
Qed.

(** The identifiers a yielded Term has [has_part] edges to are the sorted
    list the link table files under the Term's own code. *)
Lemma genome_terms_parts (list_path link_path : string) (g : KEGGGenome)
  (t : Term) :
  In t (yielded (fst (_iter_genome_terms list_path link_path g))) ->
  exists rv,
    for_each link_line (open_lines link_path) [] = Ok rv
    /\ NoDup (keys rv)
    /\ map identifier (targets has_part t)
       = match dict_get rv (identifier (reference t)) with
         | Some v => sorted v
         | None => []
         end.
Proof.
  intros Hin. apply genome_terms_member in Hin.
  destruct Hin as (k & n & c & rv & _ & _ & Hrv & Hnd & ->).
  exists rv. split; [exact Hrv|]. split; [exact Hnd|].
  rewrite targets_append_edges, targets_part_edges. simpl.
  rewrite map_map. simpl. apply map_id.
Qed.

(** ** The claims *)

(** C7: every Term [_iter_genome_terms] yields has exactly one
    [species_specific] edge, to [map] followed by the part of its own
    identifier from the first numeric character on, exactly one
    [from_kegg_species] (in KEGG taxon) edge, to the Reference of the
    genome, and the species attribute the genome's taxonomy id gives: set
    if and only if the genome has one. *)
Theorem C7_term_edges (list_path link_path : string) (g : KEGGGenome)
  (t : Term) :
  In t (yielded (fst (_iter_genome_terms list_path link_path g))) ->
  (exists code,
      pathway_code_of (identifier (reference t)) = Ok code
      /\ targets species_specific t
         = [mkReference KEGG_PATHWAY_PREFIX ("map" ++ code)%string None])
  /\ targets from_kegg_species t = [get_reference g]
  /\ species t = taxonomy_id g
  /\ (species t <> None <-> taxonomy_id g <> None).
Proof.
  intros Hin. apply genome_terms_member in Hin.
  destruct Hin as (k & n & c & rv & _ & Hc & _ & _ & ->).
  rewrite !targets_append_edges, !targets_part_edges. simpl.
  split; [|split; [|split]]; try reflexivity.
  exists c. split; [exact Hc | reflexivity].
Qed.

(** C3, as the code has it: the identifiers a yielded Term has [has_part]
    edges to are in ascending order, and there is one of them for each
    line of the link table filed under the Term's code; lines that repeat
    are not merged. *)
Theorem C3_parts_sorted_one_per_line (list_path link_path : string)
  (g : KEGGGenome) (t : Term) :
  In t (yielded (fst (_iter_genome_terms list_path link_path g))) ->
  StronglySorted (fun a b => String.leb a b = true)
    (map identifier (targets has_part t))
  /\ List.length (map identifier (targets has_part t))
     = link_count (open_lines link_path) (identifier (reference t)).
Proof.
  intros Hin. apply genome_terms_parts in Hin.
  destruct Hin as (rv & Hrv & Hnd & ->).
  destruct (link_loop _ _ _ Hrv (NoDup_nil _)) as (_ & Hlen & _).
  specialize (Hlen (identifier (reference t))).
  rewrite (parts_for_get rv _ Hnd) in Hlen. simpl in Hlen.
  destruct (dict_get rv (identifier (reference t))) as [v|].
  - split; [apply sorted_ascending | now rewrite sorted_length].
  - split; [constructor | exact Hlen].
Qed.

(** Every [has_part] edge of a yielded Term has the Term's own pathway
    code as its target: what [_get_link_pathway_map] files under a code
    is the code. *)
Lemma has_part_targets_own_code (list_path link_path : string)
  (g : KEGGGenome) (t : Term) (x : string) :
  In t (yielded (fst (_iter_genome_terms list_path link_path g))) ->
  In x (map identifier (targets has_part t)) ->
  x = identifier (reference t).
Proof.
  intros Hin Hx. apply genome_terms_parts in Hin.
  destruct Hin as (rv & Hrv & Hnd & Heq). rewrite Heq in Hx.
  destruct (link_loop _ _ _ Hrv (NoDup_nil _)) as (_ & _ & Hval & _).
  specialize (Hval (identifier (reference t)) x).
  rewrite (parts_for_get rv _ Hnd) in Hval.
  destruct (dict_get rv (identifier (reference t))) as [v|];
    [|contradiction].
  apply (proj1 (sorted_In v x)) in Hx.
  destruct (Hval Hx) as [[] | ->]. reflexivity.
Qed.

(** C4: a pathway code with no numeric character makes line 91 raise
    [ValueError] ([min] of an empty sequence), which is the spec's
    MalformedIdentifier; the listing line that carries the code raises
    it whatever the Terms so far, and a listing with such a line ends
    [_iter_genome_terms] by an exception before any Term is yielded. *)
Theorem C4_code_without_numeric_character_fails (p : string) :
  existsb isnumeric (chars p) = false ->
  pathway_code_of p = Raise (ValueError MinEmptySequence)
  /\ (forall g terms line name,
         listing_entry line = Some (p, name) ->
         listing_line g terms line = Raise (ValueError MinEmptySequence))
  /\ (forall list_path link_path g line name,
         In line (open_lines list_path) ->
         listing_entry line = Some (p, name) ->
         exists e,
           _iter_genome_terms list_path link_path g = ([], Raise e)).
Proof.
  intros Hp. assert (Hc := pathway_code_of_none p Hp).
  assert (Hline : forall g terms line name,
             listing_entry line = Some (p, name) ->
             listing_line g terms line = Raise (ValueError MinEmptySequence)).
  { intros g terms line name He. rewrite listing_line_eq.
    unfold listing_entry in He.
    destruct (unpack2 _) as [[pathway_id n]|e]; [|discriminate].
    assert (Hk : slice_from (String.length "path:") pathway_id = p)
      by congruence.
    cbv zeta. now rewrite Hk, Hc. }
  split; [exact Hc|]. split; [exact Hline|].
  intros list_path link_path g line name Hin He.
  destruct (for_each_raise (listing_line g)
              (map strip (open_lines list_path)) (strip line) [])
    as [e Hraise].
  - now apply in_map.
  - intros s'. eexists. apply (Hline g s' (strip line) name).
    now rewrite listing_entry_strip.
  - exists e. unfold _iter_genome_terms. now rewrite Hraise.
Qed.

(** C6: a pathway code with a digit splits at its first numeric
    character; the derived code is the part from that character on, the
    [species_specific] edge of the Term of a listing line with that code
    goes to [map] followed by exactly that part, and the derivation, a
    function of the code alone, gives one result. *)
Theorem C6_generic_map_code (p : string) :
  existsb isdigit (chars p) = true ->
  exists before c rest,
    p = (before ++ String c rest)%string
    /\ existsb isnumeric (chars before) = false
    /\ isnumeric c = true
    /\ pathway_code_of p = Ok (String c rest)
    /\ (forall g terms line name,
           listing_entry line = Some (p, name) ->
           exists terms' t,
             listing_line g terms line = Ok terms'
             /\ dict_get terms' p = Some t
             /\ targets species_specific t
                = [mkReference KEGG_PATHWAY_PREFIX
                     ("map" ++ String c rest)%string None])
    /\ (forall r1 r2,
           pathway_code_of p = r1 -> pathway_code_of p = r2 -> r1 = r2).
Proof.
  intros Hd.
  assert (Hn : existsb isnumeric (chars p) = true).
  { apply existsb_exists in Hd. destruct Hd as (c & Hin & Hc).
    apply existsb_exists. exists c. split; [exact Hin|].
    now apply isdigit_isnumeric. }
  destruct (first_numeric_split p Hn) as (b & c & r & -> & Hb & Hc).
  exists b, c, r. assert (Hcode := pathway_code_of_split b c r Hb Hc).
  repeat split; try assumption.
  - intros g terms line name He. rewrite listing_line_eq.
    unfold listing_entry in He.
    destruct (unpack2 _) as [[pathway_id n]|e]; [|discriminate].
    assert (Hk : slice_from (String.length "path:") pathway_id
                 = (b ++ String c r)%string) by congruence.
    cbv zeta. rewrite Hk, Hcode.
    do 2 eexists. split; [reflexivity|]. rewrite dict_get_set_same.
    split; reflexivity.
  - intros r1 r2 <- <-. reflexivity.
Qed.

(** C9, as the code has it: the code field loses its first five
    characters, or all of them when it has fewer, whatever they are: no
    test for [path:] is made and the step raises nothing. A line is
    treated, in the link table and in the listing, exactly as the line that
    has [path:] in front of what is left. In the link table what is left is
    always the key the line is filed under. In the listing it is the
    identifier and key of the Term when it has a numeric character, and
    when it has none line 91 raises its [ValueError], as for any code. *)
Theorem C9_prefix_dropped_unconditionally (field : string) :
  field = (slice_to 5 field ++ slice_from (String.length "path:") field)%string
  /\ String.length (slice_to 5 field) = Nat.min 5 (String.length field)
  /\ (forall rv line protein,
         split tab (strip line) = [protein; field] ->
         exists rv' v,
           link_line rv line = Ok rv'
           /\ dict_get rv' (slice_from (String.length "path:") field)
              = Some v)
  /\ (forall rv line line' protein,
         split tab (strip line) = [protein; field] ->
         split tab (strip line')
         = [protein;
            ("path:" ++ slice_from (String.length "path:") field)%string] ->
         link_line rv line = link_line rv line')
  /\ (forall g terms line line' name,
         map strip (split tab (strip line)) = [field; name] ->
         map strip (split tab (strip line'))
         = [("path:" ++ slice_from (String.length "path:") field)%string;
            name] ->
         listing_line g terms line = listing_line g terms line')
  /\ (forall g terms line name code,
         map strip (split tab (strip line)) = [field; name] ->
         pathway_code_of (slice_from (String.length "path:") field)
         = Ok code ->
         exists terms' t,
           listing_line g terms line = Ok terms'
           /\ dict_get terms' (slice_from (String.length "path:") field)
              = Some t
           /\ identifier (reference t)
              = slice_from (String.length "path:") field)
  /\ (forall g terms line name,
         map strip (split tab (strip line)) = [field; name] ->
         existsb isnumeric
           (chars (slice_from (String.length "path:") field)) = false ->
         listing_line g terms line = Raise (ValueError MinEmptySequence)).
Proof.
  split; [symmetry; apply (slice_to_from 5 field)|].
  split; [apply slice_to_length|]. split; [|split; [|split; [|split]]].
  - intros rv line protein Hs. unfold link_line. rewrite Hs.
    cbn [unpack2 rbind]. rewrite defaultdict_append_set.
    do 2 eexists. split; [reflexivity|]. apply dict_get_set_same.
  - intros rv line line' protein Hs Hs'. unfold link_line.
    rewrite Hs, Hs'. reflexivity.
  - intros g terms line line' name Hs Hs'. rewrite !listing_line_eq.
    rewrite Hs, Hs'. reflexivity.
  - intros g terms line name code Hs Hc. rewrite listing_line_eq, Hs.
    cbn [unpack2]. cbv zeta. rewrite Hc. do 2 eexists.
    split; [reflexivity|]. rewrite dict_get_set_same.
    split; reflexivity.
  - intros g terms line name Hs Hn. rewrite listing_line_eq, Hs.
    cbn [unpack2]. cbv zeta. now rewrite (pathway_code_of_none _ Hn).
Qed.

Lemma last_listed_unique (lines : list string) (k n n' : string) :
  last_listed lines k n -> last_listed lines k n' -> n = n'.
Proof.
  intros (l1 & a & l2 & -> & Ha & Hl2) (l1' & a' & l2' & Heq & Ha' & Hl2').
  revert l1' Heq. induction l1 as [|x l1 IH]; intros [|x' l1'] Heq;
    simpl in Heq; injection Heq as Hx Heq.
  - subst a'. rewrite Ha in Ha'. now injection Ha'.
  - subst l2. exfalso. apply (Hl2 a' n'); [|exact Ha'].
    apply in_or_app. right. now left.
  - subst l2'. exfalso. apply (Hl2' a n); [|exact Ha].
    apply in_or_app. right. now left.
  - now apply (IH l1').
Qed.

Lemma filter_values_one (d : dict Term) (p : string) (t : Term) :
  NoDup (keys d) ->
  dict_get d p = Some t ->
  (forall k t', In (k, t') d -> identifier (reference t') = k) ->
  filter (fun t' => String.eqb (identifier (reference t')) p) (values d)
  = [t].
Proof.
  unfold keys, values. induction d as [|[k t0] d IH]; simpl; [discriminate|].
  intros Hnd Hget Hid. inversion Hnd as [|? ? Hnot Hnd']; subst.
  rewrite (Hid k t0 (or_introl eq_refl)).
  destruct (String.eqb k p) eqn:E.
  - injection Hget as <-. f_equal. apply String.eqb_eq in E. subst k.
    clear IH Hnd Hnd'. induction d as [|[k1 t1] d IH]; simpl; [reflexivity|].
    rewrite (Hid k1 t1 (or_intror (or_introl eq_refl))).
    simpl in Hnot. destruct (String.eqb k1 p) eqn:E1.
    + apply String.eqb_eq in E1. exfalso. apply Hnot. now left.
    + apply IH; [intros H; apply Hnot; now right|].
      intros k t' [H | H]; apply Hid; [now left|].
      right. now right.
  - apply IH; auto.
Qed.

Lemma keys_merged (link_map : dict (list string)) (terms : dict Term) :
  keys (merged link_map terms) = keys terms.
Proof. unfold keys, merged. rewrite map_map. reflexivity. Qed.

Lemma dict_get_merged (link_map : dict (list string)) (terms : dict Term)
  (k : string) :
  dict_get (merged link_map terms) k
  = option_map
      (fun t => append_edges t (part_edges (parts_for link_map k)))
      (dict_get terms k).
Proof.
  unfold merged. induction terms as [|[k' t] terms IH]; simpl;
    [reflexivity|].
  destruct (String.eqb k' k) eqn:E; [|exact IH].
  apply String.eqb_eq in E. now subst.
Qed.

(** C10: when the listing has several lines with one code, the Term
    yielded for the code is the one made for the last of them: it is the
    only Term with that identifier and it has that line's name and one
    edge of each kind the listing gives, none left from the Terms the
    earlier lines made. *)
Theorem C10_last_listing_line_wins (list_path link_path : string)
  (g : KEGGGenome) (es : list (event Term)) (l1 l2 : list string)
  (line p name : string) :
  _iter_genome_terms list_path link_path g = (es, Ok tt) ->
  open_lines list_path = l1 ++ line :: l2 ->
  listing_entry line = Some (p, name) ->
  (forall line' name', In line' l2 -> listing_entry line' <> Some (p, name')) ->
  exists t,
    filter (fun t' => String.eqb (identifier (reference t')) p) (yielded es)
    = [t]
    /\ reference t = mkReference KEGG_PATHWAY_PREFIX p (Some name)
    /\ List.length (targets species_specific t) = 1
    /\ List.length (targets from_kegg_species t) = 1.
Proof.
  intros Hrun Hlines He Hl2.
  assert (Hlast : last_listed (open_lines list_path) p name).
  { exists l1, line, l2. auto. }
  destruct (genome_terms_cases list_path link_path g)
    as [(terms & rv & es' & El & Ek & Heq & Hy) | (es' & e & Heq & _)];
    rewrite Hrun in Heq; [|discriminate].
  injection Heq as <-.
  destruct (listing_loop g _ _ _ El (NoDup_nil _)) as (Hnd & Hget & Hin & _).
  assert (Hp : dict_get terms p <> None).
  { apply (Hin (strip line) p name).
    - apply in_map. rewrite Hlines. apply in_or_app. right. now left.
    - now rewrite listing_entry_strip. }
  destruct (dict_get terms p) as [t0|] eqn:Et0; [clear Hp | now elim Hp].
  destruct (Hget p t0 Et0) as [(n & c & Hl & Hc & ->) | [_ Hno]];
    [|discriminate].
  rewrite last_listed_strip in Hl.
  assert (n = name) by (eapply last_listed_unique; eassumption). subst n.
  eexists. split; [|split; [|split]].
  - rewrite Hy. apply filter_values_one.
    + now rewrite keys_merged.
    + rewrite dict_get_merged, Et0. reflexivity.
    + intros k t' Hk. unfold merged in Hk. apply in_map_iff in Hk.
      destruct Hk as ([k0 t1] & [= <- <-] & Hk). simpl.
      apply (In_dict_get _ _ _ Hnd) in Hk.
      destruct (Hget k0 t1 Hk) as [(n' & c' & _ & _ & ->) | [_ Hno]];
        [reflexivity | discriminate].
  - reflexivity.
  - rewrite targets_append_edges, targets_part_edges. reflexivity.
  - rewrite targets_append_edges, targets_part_edges. reflexivity.
Qed.

(** ** An unresolved pathway *)

Lemma dict_get_add_parts_None (k0 : string) (vs0 : list string)
  (terms : dict Term) (k : string) :
  dict_get terms k = None -> dict_get (map (add_parts k0 vs0) terms) k = None.
Proof. rewrite !dict_get_None, keys_add_parts. trivial. Qed.

Lemma merge_loop_unresolved (items : dict (list string)) :
  forall terms k x vs,
    NoDup (keys terms) ->
    In (k, x :: vs) items ->
    dict_get terms k = None ->
    snd (gfor_each merge_item items terms)
    = Raise (AttributeError "append_relationship").
Proof.
  induction items as [|[k0 vs0] items IH]; intros terms k x vs Hnd Hin Hk;
    [contradiction|].
  change (gfor_each merge_item ((k0, vs0) :: items) terms)
    with (gbind (merge_item terms (k0, vs0)) (gfor_each merge_item items)).
  destruct (merge_item_spec terms k0 vs0 Hnd) as [_ Hok].
  destruct (merge_item terms (k0, vs0)) as [es [terms1|e]] eqn:Em.
  - specialize (Hok _ eq_refl). subst terms1. simpl.
    assert (Hin' : In (k, x :: vs) items).
    { destruct Hin as [[= -> ->] | Hin]; [|exact Hin]. exfalso.
      unfold merge_item in Em. rewrite Hk in Em. simpl in Em. discriminate. }
    specialize (IH (map (add_parts k0 vs0) terms) k x vs).
    rewrite keys_add_parts in IH.
    specialize (IH Hnd Hin' (dict_get_add_parts_None _ _ _ _ Hk)).
    destruct (gfor_each merge_item items _) as [es' r]. exact IH.
  - simpl. unfold merge_item in Em.
    destruct (dict_get terms k0) as [t0|].
    + rewrite attach_loop in Em by exact Hnd. discriminate.
    + destruct vs0 as [|y vs0]; simpl in Em; [discriminate|].
      now injection Em as _ <-.
Qed.

Lemma link_count_pos (lines : list string) (line k : string) :
  In line lines -> link_key line = Some k -> 0 < link_count lines k.
Proof.
  induction lines as [|l lines IH]; intros Hin Hk; [contradiction|].
  rewrite link_count_cons. destruct Hin as [-> | Hin].
  - rewrite Hk, String.eqb_refl. lia.
  - specialize (IH Hin Hk). lia.
Qed.

(** Whenever the link table files a line under a code the listing does not
    have, [_iter_genome_terms] ends by [AttributeError] and yields nothing. *)
Lemma unresolved_pathway_raises (list_path link_path : string)
  (g : KEGGGenome) (terms : dict Term) (rv : dict (list string))
  (line k : string) :
  for_each (listing_line g) (map strip (open_lines list_path)) [] = Ok terms ->
  for_each link_line (open_lines link_path) [] = Ok rv ->
  In line (open_lines link_path) ->
  link_key line = Some k ->
  dict_get terms k = None ->
  snd (_iter_genome_terms list_path link_path g)
  = Raise (AttributeError "append_relationship")
  /\ yielded (fst (_iter_genome_terms list_path link_path g)) = [].
Proof.
  intros El Ek Hin Hkey Hk.
  destruct (listing_loop g _ _ _ El (NoDup_nil _)) as (Hnd & _).
  destruct (link_loop _ _ _ Ek (NoDup_nil _)) as (Hndk & Hlen & _).
  specialize (Hlen k). simpl in Hlen.
  assert (Hpos := link_count_pos _ _ _ Hin Hkey).
  rewrite (parts_for_get rv k Hndk) in Hlen.
  destruct (dict_get rv k) as [v|] eqn:Ev; [|simpl in Hlen; lia].
  assert (Hitem : In (k, sorted v)
                    (map (fun kv => (fst kv, sorted (snd kv))) rv)).
  { apply in_map_iff. exists (k, v). split; [reflexivity|].
    now apply dict_get_In. }
  assert (Hs := sorted_length v).
  destruct (sorted v) as [|x vs]; [simpl in Hs; lia|].
  assert (Hraise := merge_loop_unresolved _ terms k x vs Hnd Hitem Hk).
  destruct (merge_loop (map (fun kv => (fst kv, sorted (snd kv))) rv)
              terms Hnd) as [Hy _].
  unfold _iter_genome_terms, _get_link_pathway_map. rewrite El, Ek. simpl.
  destruct (gfor_each merge_item _ terms) as [es r]. simpl in *.
  subst r. simpl. auto.
Qed.

(** ** The driver *)

Lemma download_error_message_contains (g : KEGGGenome) (code : Z)
  (url : string) :
  contains (str_of_int code) (download_error_message g code url)
  /\ contains (genome_identifier g) (download_error_message g code url)
  /\ contains (genome_name g) (download_error_message g code url)
  /\ contains url (download_error_message g code url)
  /\ (forall taxonomy,
         taxonomy_id g = Some taxonomy ->
         contains taxonomy (download_error_message g code url)).
Proof.
  unfold download_error_message, contains. cbv zeta.
  destruct (taxonomy_id g) as [taxonomy|].
  - split; [|split; [|split; [|split]]].
    + exists "[HTTP ",
        ("] Error downloading " ++ genome_identifier g ++ " ("
         ++ genome_name g ++ "; taxonomy:" ++ taxonomy ++ "): " ++ url)%string.
      rewrite !append_assoc. reflexivity.
    + exists ("[HTTP " ++ str_of_int code ++ "] Error downloading ")%string,
        (" (" ++ genome_name g ++ "; taxonomy:" ++ taxonomy ++ "): "
         ++ url)%string.
      rewrite !append_assoc. reflexivity.
    + exists ("[HTTP " ++ str_of_int code ++ "] Error downloading "
              ++ genome_identifier g ++ " (")%string,
        ("; taxonomy:" ++ taxonomy ++ "): " ++ url)%string.
      rewrite !append_assoc. reflexivity.
    + exists ("[HTTP " ++ str_of_int code ++ "] Error downloading "
              ++ genome_identifier g ++ " (" ++ genome_name g
              ++ "; taxonomy:" ++ taxonomy ++ "): ")%string, "".
      rewrite append_nil_r, !append_assoc. reflexivity.
    + intros ? [= <-].
      exists ("[HTTP " ++ str_of_int code ++ "] Error downloading "
              ++ genome_identifier g ++ " (" ++ genome_name g
              ++ "; taxonomy:")%string, ("): " ++ url)%string.
      rewrite !append_assoc. reflexivity.
  - split; [|split; [|split; [|split]]].
    + exists "[HTTP ",
        ("] Error downloading " ++ genome_identifier g ++ " ("
         ++ genome_name g ++ "): " ++ url)%string.
      rewrite !append_assoc. reflexivity.
    + exists ("[HTTP " ++ str_of_int code ++ "] Error downloading ")%string,
        (" (" ++ genome_name g ++ "): " ++ url)%string.
      rewrite !append_assoc. reflexivity.
    + exists ("[HTTP " ++ str_of_int code ++ "] Error downloading "
              ++ genome_identifier g ++ " (")%string, ("): " ++ url)%string.
      rewrite !append_assoc. reflexivity.
    + exists ("[HTTP " ++ str_of_int code ++ "] Error downloading "
              ++ genome_identifier g ++ " (" ++ genome_name g ++ "): ")%string,
        "".
      rewrite append_nil_r, !append_assoc. reflexivity.
    + discriminate.
Qed.

Lemma paths_of_genome_cases (g : KEGGGenome) :
  match fetch_paths g with
  | Ok (a, b) => paths_of_genome g = ([Yield (g, a, b)], Ok tt)
  | Raise (HTTPError code url) =>
      if (code =? 404)%Z
      then paths_of_genome g = ([], Ok tt)
      else paths_of_genome g
           = ([Write (download_error_message g code url)], Ok tt)
  | Raise e => paths_of_genome g = ([], Raise e)
  end.
Proof.
  unfold paths_of_genome.
  destruct (fetch_paths g) as [[a b]|[w|a|code url|r]]; try reflexivity.
  now destruct (code =? 404)%Z.
Qed.

Lemma paths_loop (genomes : list KEGGGenome) :
  (forall g e, In g genomes -> fetch_paths g = Raise e ->
               exists code url, e = HTTPError code url) ->
  snd (gfor_each (fun _ => paths_of_genome) genomes tt) = Ok tt
  /\ yielded (fst (gfor_each (fun _ => paths_of_genome) genomes tt))
     = flat_map fetched genomes
  /\ written (fst (gfor_each (fun _ => paths_of_genome) genomes tt))
     = flat_map reported genomes.
Proof.
  induction genomes as [|g genomes IH]; intros Hhttp.
  - simpl. auto.
  - destruct IH as (Hend & Hy & Hw).
    { intros g' e Hin. apply Hhttp. now right. }
    change (gfor_each (fun _ => paths_of_genome) (g :: genomes) tt)
      with (gbind (paths_of_genome g)
              (gfor_each (fun _ => paths_of_genome) genomes)).
    assert (Hg := paths_of_genome_cases g).
    assert (Hg' := Hhttp g). simpl flat_map. unfold fetched at 1.
    unfold reported at 1.
    destruct (fetch_paths g) as [[a b]|e].
    + rewrite Hg. simpl.
      destruct (gfor_each _ genomes tt) as [es r]. simpl in *.
      now rewrite Hy, Hw.
    + destruct (Hg' e (or_introl eq_refl) eq_refl) as (code & url & ->).
      destruct (code =? 404)%Z; rewrite Hg; simpl;
        destruct (gfor_each _ genomes tt) as [es r]; simpl in *;
        now rewrite Hy, Hw.
Qed.

(** C5, as the code has it: when every fetch that fails fails with an
    [HTTPError], the driver goes through all the genomes and ends without
    an exception; it yields the paths of the genomes whose two files were
    fetched, in order, and writes one diagnostic for each genome whose
    fetch failed with a status other than 404. A genome that failed with
    404 is passed over with nothing yielded and nothing written; the
    diagnostic of another status has the status, the genome's code and
    name, its taxonomy id when there is one, and the URL. *)
Theorem C5_http_errors_skip_the_genome :
  (forall g e, In g iter_kegg_genomes -> fetch_paths g = Raise e ->
               exists code url, e = HTTPError code url) ->
  snd iter_kegg_pathway_paths = Ok tt
  /\ yielded (fst iter_kegg_pathway_paths) = flat_map fetched iter_kegg_genomes
  /\ written (fst iter_kegg_pathway_paths)
     = flat_map reported iter_kegg_genomes
  /\ (forall g url,
         fetch_paths g = Raise (HTTPError 404 url) ->
         fetched g = [] /\ reported g = []
         /\ paths_of_genome g = ([], Ok tt))
  /\ (forall g code url,
         code <> 404%Z ->
         fetch_paths g = Raise (HTTPError code url) ->
         fetched g = []
         /\ reported g = [download_error_message g code url]
         /\ paths_of_genome g
            = ([Write (download_error_message g code url)], Ok tt)
         /\ contains (str_of_int code) (download_error_message g code url)
         /\ contains (genome_identifier g)
              (download_error_message g code url)
         /\ contains (genome_name g) (download_error_message g code url)
         /\ contains url (download_error_message g code url)
         /\ (forall taxonomy,
                taxonomy_id g = Some taxonomy ->
                contains taxonomy (download_error_message g code url))).
Proof.
  intros Hhttp. destruct (paths_loop iter_kegg_genomes Hhttp) as (He & Hy & Hw).
  split; [exact He|]. split; [exact Hy|]. split; [exact Hw|]. split.
  - intros g url Hf. assert (Hg := paths_of_genome_cases g).
    unfold fetched, reported. rewrite Hf in *. simpl in *. auto.
  - intros g code url Hcode Hf. assert (Hg := paths_of_genome_cases g).
    unfold fetched, reported. rewrite Hf in *.
    apply Z.eqb_neq in Hcode. rewrite Hcode in *.
    split; [reflexivity|]. split; [reflexivity|]. split; [exact Hg|].
    apply download_error_message_contains.
Qed.

(** ** The assembler *)

Lemma gfor_gen_events_yielded {X Y : Type} (body : X -> Gen Y unit)
  (ending : Res unit) (es : list (event X)) :
  exists n,
    yielded (fst (gfor_gen_events es ending body))
    = flat_map (fun x => yielded (fst (body x))) (firstn n (yielded es))
    /\ (snd (gfor_gen_events es ending body) = Ok tt ->
        n = List.length (yielded es) /\ ending = Ok tt).
Proof.
  induction es as [|[x|msg] es IH].
  - exists 0. simpl. split; [reflexivity|]. intros ->. auto.
  - destruct IH as (n & Hy & Hn).
    change (gfor_gen_events (Yield x :: es) ending body)
      with (gbind (body x) (fun _ => gfor_gen_events es ending body)).
    destruct (body x) as [es1 [[]|e]] eqn:Eb.
    + exists (S n). simpl. rewrite Eb. simpl.
      destruct (gfor_gen_events es ending body) as [es2 r]. simpl in *.
      rewrite yielded_app, Hy. split; [reflexivity|].
      intros Hr. destruct (Hn Hr) as [-> ->]. auto.
    + exists 1. simpl. rewrite Eb. simpl. rewrite app_nil_r.
      split; [reflexivity | discriminate].
  - destruct IH as (n & Hy & Hn). exists n.
    change (gfor_gen_events (Write msg :: es) ending body)
      with (gbind (tqdm_write msg)
              (fun _ => gfor_gen_events es ending body)).
    simpl. destruct (gfor_gen_events es ending body) as [es2 r].
    simpl in *. auto.
Qed.

Lemma gfor_gen_events_reached {X Y : Type} (body : X -> Gen Y unit)
  (ending : Res unit) (es : list (event X)) :
  yielded (fst (gfor_gen_events es ending body))
  = flat_map (fun x => yielded (fst (body x))) (reached body (yielded es))
  /\ snd (gfor_gen_events es ending body)
     = ending_after body (yielded es) ending.
Proof.
  induction es as [|[x|msg] es IH];
    cbn [gfor_gen_events yielded reached ending_after].
  - simpl. auto.
  - destruct (body x) as [es1 [[]|e]] eqn:Eb; cbn [gbind snd].
    + cbn [flat_map]. rewrite Eb. cbn [fst].
      destruct IH as [Hy He].
      destruct (gfor_gen_events es ending body) as [es2 r]. simpl in *.
      now rewrite yielded_app, Hy.
    + cbn [flat_map]. rewrite Eb. simpl. now rewrite app_nil_r.
  - unfold tqdm_write. cbn [gbind]. destruct IH as [Hy He].
    destruct (gfor_gen_events es ending body) as [es2 r]. simpl in *. auto.
Qed.

Lemma ending_after_ok {X Y : Type} (body : X -> Gen Y unit) (xs : list X)
  (ending : Res unit) :
  ending_after body xs ending = Ok tt ->
  reached body xs = xs /\ ending = Ok tt.
Proof.
  induction xs as [|x xs IH]; cbn [ending_after reached]; [auto|].
  destruct (snd (body x)) as [u|e]; [|discriminate].
  intros H. destruct (IH H) as [-> ->]. auto.
Qed.

(** C8: with the catalog at hand, [_iter_map_terms] yields one Term for
    each entry, in the order of the entries, with the entry's identifier
    and name and with no relationship and no species; [iter_terms] yields
    those Terms first and then, in the order of the driver, the Terms
    [_iter_genome_terms] yields for each genome the loop reaches, which are
    all the genomes of the driver up to the first on which
    [_iter_genome_terms] raises; that run yields no Term and its exception
    ends [iter_terms], which otherwise ends as the driver does; when
    [iter_terms] ends normally the loop has reached every genome of the
    driver. *)
Theorem C8_map_terms_then_genome_terms (catalog : dict string) :
  ensure_list_pathways = Ok catalog ->
  yielded (fst _iter_map_terms)
  = map (fun kv =>
           mkTerm (mkReference KEGG_PATHWAY_PREFIX (fst kv) (Some (snd kv)))
             [] None) catalog
  /\ yielded (fst iter_terms)
     = yielded (fst _iter_map_terms)
       ++ flat_map genome_terms
            (reached genome_run (yielded (fst iter_kegg_pathway_paths)))
  /\ snd iter_terms
     = ending_after genome_run (yielded (fst iter_kegg_pathway_paths))
         (snd iter_kegg_pathway_paths)
  /\ (forall x e, snd (genome_run x) = Raise e -> genome_terms x = [])
  /\ (snd iter_terms = Ok tt ->
      reached genome_run (yielded (fst iter_kegg_pathway_paths))
      = yielded (fst iter_kegg_pathway_paths)
      /\ snd iter_kegg_pathway_paths = Ok tt).
Proof.
  intros Hcat.
  assert (Hrun : iter_terms
                 = gbind _iter_map_terms
                     (fun _ => gfor_gen iter_kegg_pathway_paths genome_run))
    by reflexivity.
  assert (Hmap : _iter_map_terms
                 = (map Yield
                      (map (fun kv =>
                              new_Term
                                (mkReference KEGG_PATHWAY_PREFIX (fst kv)
                                   (Some (snd kv)))) catalog), Ok tt)).
  { unfold _iter_map_terms. now rewrite Hcat. }
  rewrite Hrun, Hmap. cbn [gbind fst]. rewrite yielded_map_Yield.
  split; [reflexivity|]. unfold gfor_gen.
  destruct (gfor_gen_events_reached genome_run (snd iter_kegg_pathway_paths)
              (fst iter_kegg_pathway_paths)) as [Hy He].
  destruct (gfor_gen_events _ _ genome_run) as [es r]. simpl in *.
  rewrite yielded_app, yielded_map_Yield, Hy, He.
  split; [|split; [reflexivity|split]].
  - f_equal. apply flat_map_ext. now intros [[g a] b].
  - intros [[g a] b] e Hx. unfold genome_terms. unfold genome_run in Hx.
    destruct (genome_terms_cases a b g)
      as [(terms & rv & es' & _ & _ & Heq & _) | (es' & e' & Heq & Hnone)];
      rewrite Heq in *; [discriminate | exact Hnone].
  - apply ending_after_ok.
Qed.

(** ** Further properties *)

(** *** Loops that end normally, and the line that stops them *)

Lemma for_each_all_ok {X S : Type} (body : S -> X -> Res S) (xs : list X) :
  (forall s x, In x xs -> exists s', body s x = Ok s') ->
  forall s, exists s', for_each body xs s = Ok s'.
Proof.
  induction xs as [|x xs IH]; simpl; intros Hok s; [eauto|].
  destruct (Hok s x (or_introl eq_refl)) as [s1 ->]. simpl.
  apply IH. intros s' y Hy. apply Hok. now right.
Qed.

Lemma for_each_ok_each {X S : Type} (body : S -> X -> Res S) (xs : list X) :
  forall s s',
    for_each body xs s = Ok s' ->
    forall x, In x xs -> exists s1 s2, body s1 x = Ok s2.
Proof.
  induction xs as [|y xs IH]; simpl; intros s s' H x Hin; [contradiction|].
  destruct (body s y) as [s1|e] eqn:E; [simpl in H | discriminate].
  destruct Hin as [<- | Hin]; [eauto | eapply IH; eauto].
Qed.

Lemma for_each_first_raise {X S : Type} (body : S -> X -> Res S)
  (l1 l2 : list X) (x : X) (e : exn) :
  (forall s y, In y l1 -> exists s', body s y = Ok s') ->
  (forall s, body s x = Raise e) ->
  forall s, for_each body (l1 ++ x :: l2) s = Raise e.
Proof.
  intros Hok Hx. induction l1 as [|y l1 IH]; simpl; intros s.
  - now rewrite Hx.
  - destruct (Hok s y (or_introl eq_refl)) as [s1 ->]. simpl.
    apply IH. intros s' z Hz. apply Hok. now right.
Qed.

(** *** The order of the keys of a dict *)

Lemma fresh_nil (l : list string) : filter (fresh []) l = l.
Proof. induction l as [|x l IH]; simpl; [reflexivity | now rewrite IH]. Qed.

Lemma existsb_eqb_In (k : string) (l : list string) :
  existsb (String.eqb k) l = true <-> In k l.
Proof.
  rewrite existsb_exists. split.
  - intros (x & Hx & E). apply String.eqb_eq in E. now subst.
  - intros H. exists k. split; [exact H | apply String.eqb_refl].
Qed.

Lemma filter_fresh_seen (seen l : list string) (k : string) :
  In k seen ->
  filter (fresh seen) (filter (fun y => negb (String.eqb y k)) l)
  = filter (fresh seen) l.
Proof.
  intros Hk. induction l as [|y l IH]; simpl; [reflexivity|].
  destruct (String.eqb y k) eqn:E; simpl.
  - apply String.eqb_eq in E. subst y. unfold fresh at 2.
    apply existsb_eqb_In in Hk. rewrite Hk. simpl. exact IH.
  - now rewrite IH.
Qed.

Lemma filter_fresh_snoc (seen l : list string) (k : string) :
  filter (fresh (seen ++ [k])) l
  = filter (fresh seen) (filter (fun y => negb (String.eqb y k)) l).
Proof.
  induction l as [|y l IH]; simpl; [reflexivity|].
  unfold fresh at 1. rewrite existsb_app. simpl. rewrite orb_false_r.
  rewrite negb_orb. fold (fresh seen y).
  destruct (String.eqb y k); simpl.
  - rewrite andb_false_r. exact IH.
  - rewrite andb_true_r. destruct (fresh seen y); [now rewrite IH | exact IH].
Qed.

(** Setting [k] in a dict whose later keys are those of [codes] makes the
    keys those of [k :: codes]. *)
Lemma keys_first_occurrences_step {V : Type} (d d' : dict V) (k : string)
  (v : V) (codes : list string) :
  keys d' = keys (dict_set d k v)
            ++ filter (fresh (keys (dict_set d k v))) (first_occurrences codes) ->
  keys d' = keys d ++ filter (fresh (keys d)) (first_occurrences (k :: codes)).
Proof.
  intros ->. rewrite keys_dict_set.
  change (first_occurrences (k :: codes))
    with (k :: filter (fun y => negb (String.eqb y k))
                 (first_occurrences codes)).
  cbn [filter].
  destruct (dict_get d k) as [v0|] eqn:E.
  - assert (Hin : In k (keys d)).
    { apply dict_get_In in E. change k with (fst (k, v0)).
      now apply in_map. }
    assert (Hf : fresh (keys d) k = false).
    { unfold fresh. now rewrite (proj2 (existsb_eqb_In k (keys d)) Hin). }
    rewrite Hf. now rewrite filter_fresh_seen.
  - assert (Hf : fresh (keys d) k = true).
    { unfold fresh. apply dict_get_None in E.
      destruct (existsb _ _) eqn:Ex; [|reflexivity].
      apply existsb_eqb_In in Ex. contradiction. }
    rewrite Hf, <- app_assoc. simpl. now rewrite filter_fresh_snoc.
Qed.

(** *** What [_get_link_pathway_map] returns *)

Lemma unpack2_raise (parts : list string) :
  List.length parts <> 2 ->
  unpack2 parts = Raise (ValueError (Unpack 2 (List.length parts))).
Proof.
  destruct parts as [|a [|b [|c r]]]; simpl; intros H; try reflexivity.
  now elim H.
Qed.

Lemma unpack2_ok (parts : list string) :
  List.length parts = 2 -> exists a b, parts = [a; b].
Proof.
  destruct parts as [|a [|b [|c r]]]; simpl; intros H; try discriminate.
  eauto.
Qed.

Lemma link_key_fields (line : string) :
  link_key line <> None <-> List.length (split tab (strip line)) = 2.
Proof.
  unfold link_key. split.
  - intros H. destruct (split tab (strip line)) as [|a [|b [|c r]]];
      simpl in *; try reflexivity; now elim H.
  - intros H. destruct (unpack2_ok _ H) as (a & b & ->). simpl. discriminate.
Qed.

Lemma link_line_fields (rv : dict (list string)) (line : string) :
  List.length (split tab (strip line)) <> 2 ->
  link_line rv line
  = Raise (ValueError (Unpack 2 (List.length (split tab (strip line))))).
Proof.
  intros H. unfold link_line. now rewrite (unpack2_raise _ H).
Qed.

Lemma link_line_some (rv : dict (list string)) (line : string) :
  link_key line <> None -> exists rv', link_line rv line = Ok rv'.
Proof.
  unfold link_key, link_line.
  destruct (unpack2 _) as [[protein pathway]|e]; simpl; [eauto|].
  intros H. now elim H.
Qed.

Lemma link_loop_keys (lines : list string) :
  forall rv0 rv,
    for_each link_line lines rv0 = Ok rv ->
    keys rv = keys rv0
              ++ filter (fresh (keys rv0)) (first_occurrences (link_codes lines)).
Proof.
  induction lines as [|line lines IH]; simpl; intros rv0 rv H.
  - injection H as <-. simpl. now rewrite app_nil_r.
  - destruct (link_line rv0 line) as [rv1|e] eqn:E;
      [simpl in H | discriminate].
    apply link_line_ok in E. destruct E as (k1 & Hk1 & ->).
    rewrite defaultdict_append_set in H. specialize (IH _ _ H).
    unfold link_codes. simpl. rewrite Hk1. simpl.
    fold (link_codes lines).
    eapply keys_first_occurrences_step. exact IH.
Qed.

Lemma all_equal_repeat (l : list string) (k : string) :
  (forall x, In x l -> x = k) -> l = repeat k (List.length l).
Proof.
  induction l as [|x l IH]; simpl; intros H; [reflexivity|].
  rewrite (H x (or_introl eq_refl)). f_equal. apply IH.
  intros y Hy. apply H. now right.
Qed.

(** What the sorted map files under a code: the code itself, once for each
    line of the table with that code. *)
Lemma link_values (lines : list string) (rv : dict (list string)) (k : string) :
  for_each link_line lines [] = Ok rv ->
  match dict_get rv k with Some v => sorted v | None => [] end
  = repeat k (link_count lines k).
Proof.
  intros H. destruct (link_loop _ _ _ H (NoDup_nil _)) as (Hnd & Hlen & Hval & _).
  specialize (Hlen k). specialize (Hval k).
  rewrite (parts_for_get rv k Hnd) in Hlen, Hval. simpl in Hlen.
  destruct (dict_get rv k) as [v|].
  - rewrite <- Hlen, <- (sorted_length v). apply all_equal_repeat.
    intros x Hx. apply (proj1 (sorted_In v x)) in Hx.
    destruct (Hval x Hx) as [[] | ->]. reflexivity.
  - now rewrite <- Hlen.
Qed.

Lemma dict_get_map_values {V W : Type} (f : V -> W) (d : dict V) (k : string) :
  dict_get (map (fun kv => (fst kv, f (snd kv))) d) k
  = option_map f (dict_get d k).
Proof.
  induction d as [|[k' v] d IH]; simpl; [reflexivity|].
  now destruct (String.eqb k' k).
Qed.

(** X1: when [_get_link_pathway_map] returns, the keys of the map are the
    pathway codes of the table, each once, in the order in which they first
    occur; under a code the map has a list with one element for each line
    of the table with that code, and every element is the code itself; a
    code the table does not have is not a key. *)
Theorem link_map_contents (path : string) (m : dict (list string)) :
  _get_link_pathway_map path = Ok m ->
  keys m = first_occurrences (link_codes (open_lines path))
  /\ NoDup (keys m)
  /\ forall k,
      dict_get m k
      = match link_count (open_lines path) k with
        | O => None
        | S n => Some (repeat k (S n))
        end.
Proof.
  unfold _get_link_pathway_map.
  destruct (for_each link_line (open_lines path) []) as [rv|e] eqn:E;
    simpl; [|discriminate].
  intros [= <-].
  destruct (link_loop _ _ _ E (NoDup_nil _)) as (Hnd & Hlen & _ & Hkeys).
  assert (Hk : keys (map (fun kv => (fst kv, sorted (snd kv))) rv) = keys rv).
  { unfold keys. rewrite map_map. reflexivity. }
  rewrite Hk. split; [|split; [exact Hnd|]].
  - rewrite (link_loop_keys _ _ _ E). simpl. apply fresh_nil.
  - intros k. rewrite dict_get_map_values.
    assert (Hv := link_values _ _ k E).
    destruct (dict_get rv k) as [v|] eqn:Ev; simpl.
    + destruct (Hkeys k) as [[] | Hpos].
      { apply dict_get_In in Ev. change k with (fst (k, v)).
        now apply in_map. }
      rewrite Hv. destruct (link_count (open_lines path) k); [lia | reflexivity].
    + specialize (Hlen k). rewrite (parts_for_get rv k Hnd), Ev in Hlen.
      simpl in Hlen. now rewrite <- Hlen.
Qed.

Lemma link_map_ok_fields (path : string) (m : dict (list string)) :
  _get_link_pathway_map path = Ok m ->
  forall line, In line (open_lines path) ->
               List.length (split tab (strip line)) = 2.
Proof.
  unfold _get_link_pathway_map. intros H line Hin.
  destruct (for_each link_line (open_lines path) []) as [rv|e] eqn:E;
    [|discriminate].
  destruct (for_each_ok_each _ _ _ _ E line Hin) as (s1 & s2 & Hl).
  apply link_line_ok in Hl. destruct Hl as (k & Hk & _).
  apply link_key_fields. rewrite Hk. discriminate.
Qed.

Lemma link_map_fields_ok (path : string) :
  (forall line, In line (open_lines path) ->
                List.length (split tab (strip line)) = 2) ->
  exists m, _get_link_pathway_map path = Ok m.
Proof.
  intros Hall. unfold _get_link_pathway_map.
  destruct (for_each_all_ok link_line (open_lines path))
    with (s := @nil (string * list string)) as [rv ->].
  - intros s x Hx. apply link_line_some, link_key_fields, Hall, Hx.
  - simpl. eauto.
Qed.

(** X2: [_get_link_pathway_map] returns exactly when every line of the
    table has two fields between tabs once it is stripped; otherwise it
    raises the [ValueError] of the first line that has not, which tells how
    many fields the line has. *)
Theorem link_map_returns_iff_two_fields (path : string) :
  ((exists m, _get_link_pathway_map path = Ok m)
   <-> forall line, In line (open_lines path) ->
                    List.length (split tab (strip line)) = 2)
  /\ forall l1 line l2,
      open_lines path = l1 ++ line :: l2 ->
      (forall l, In l l1 -> List.length (split tab (strip l)) = 2) ->
      List.length (split tab (strip line)) <> 2 ->
      _get_link_pathway_map path
      = Raise (ValueError (Unpack 2 (List.length (split tab (strip line))))).
Proof.
  split; [split|].
  - intros [m H]. exact (link_map_ok_fields path m H).
  - apply link_map_fields_ok.
  - intros l1 line l2 Heq Hl1 Hline. unfold _get_link_pathway_map.
    rewrite Heq.
    rewrite (for_each_first_raise link_line l1 l2 line
               (ValueError (Unpack 2 (List.length (split tab (strip line)))))).
    + reflexivity.
    + intros s y Hy. apply link_line_some, link_key_fields, Hl1, Hy.
    + intros s. now apply link_line_fields.
Qed.

(** *** How [_iter_genome_terms] ends *)

Lemma listing_line_strip (g : KEGGGenome) (terms : dict Term) (line : string) :
  listing_line g terms (strip line) = listing_line g terms line.
Proof. rewrite !listing_line_eq. now rewrite strip_idem. Qed.

Lemma listing_line_ok_iff (g : KEGGGenome) (terms : dict Term) (line : string) :
  (exists terms', listing_line g terms line = Ok terms') <-> listing_ok line.
Proof.
  unfold listing_ok. split.
  - intros [terms' H]. apply listing_line_ok in H.
    destruct H as (k & n & c & He & Hc & _). eauto.
  - intros (k & n & c & He & Hc). rewrite listing_line_eq.
    unfold listing_entry in He.
    destruct (unpack2 _) as [[pathway_id name]|e]; [|discriminate].
    assert (Hk : slice_from (String.length "path:") pathway_id = k)
      by congruence.
    cbv zeta. rewrite Hk, Hc. eauto.
Qed.

Lemma listing_ok_strip (line : string) :
  listing_ok (strip line) <-> listing_ok line.
Proof. unfold listing_ok. now rewrite listing_entry_strip. Qed.

Lemma listing_codes_strip (lines : list string) :
  listing_codes (map strip lines) = listing_codes lines.
Proof.
  unfold listing_codes. induction lines as [|l lines IH]; simpl;
    [reflexivity|].
  now rewrite listing_entry_strip, IH.
Qed.

Lemma In_listing_codes (lines : list string) (k : string) :
  In k (listing_codes lines)
  <-> exists line name, In line lines /\ listing_entry line = Some (k, name).
Proof.
  unfold listing_codes. rewrite in_flat_map. split.
  - intros (line & Hin & Hk).
    destruct (listing_entry line) as [[k' n]|] eqn:E; [|contradiction].
    destruct Hk as [<- | []]. eauto.
  - intros (line & n & Hin & E). exists line. split; [exact Hin|].
    rewrite E. now left.
Qed.

Lemma In_link_codes (lines : list string) (k : string) :
  In k (link_codes lines)
  <-> exists line, In line lines /\ link_key line = Some k.
Proof.
  unfold link_codes. rewrite in_flat_map. split.
  - intros (line & Hin & Hk).
    destruct (link_key line) as [k'|] eqn:E; [|contradiction].
    destruct Hk as [<- | []]. eauto.
  - intros (line & Hin & E). exists line. split; [exact Hin|].
    rewrite E. now left.
Qed.

Lemma link_count_pos_iff (lines : list string) (k : string) :
  0 < link_count lines k <-> In k (link_codes lines).
Proof.
  rewrite In_link_codes. split.
  - induction lines as [|l lines IH]; [unfold link_count; simpl; lia|].
    rewrite link_count_cons. destruct (link_key l) as [k'|] eqn:E.
    + destruct (String.eqb k' k) eqn:Ek.
      * apply String.eqb_eq in Ek. subst k'. intros _. exists l.
        split; [now left | exact E].
      * intros H. destruct (IH H) as (line & Hin & Hk). exists line.
        split; [now right | exact Hk].
    + intros H. destruct (IH H) as (line & Hin & Hk). exists line.
      split; [now right | exact Hk].
  - intros (line & Hin & Hk). eapply link_count_pos; eassumption.
Qed.

(** The listing loop: the codes it leaves in [terms] are those of the
    lines. *)
Lemma listing_loop_codes (g : KEGGGenome) (lines : list string)
  (terms : dict Term) (k : string) :
  for_each (listing_line g) lines [] = Ok terms ->
  dict_get terms k <> None <-> In k (listing_codes lines).
Proof.
  intros El.
  destruct (listing_loop g _ _ _ El (NoDup_nil _)) as (_ & Hget & Hin & _).
  rewrite In_listing_codes. split.
  - intros Hk. destruct (dict_get terms k) as [t|] eqn:Et; [|now elim Hk].
    destruct (Hget k t Et) as [(n & c & Hl & _) | [_ Hno]]; [|discriminate].
    destruct Hl as (l1 & line & l2 & -> & He & _). exists line, n.
    split; [|exact He]. apply in_or_app. right. now left.
  - intros (line & n & Hl & He). eapply Hin; eassumption.
Qed.

(** The merge loop over a map whose lists are not empty: it goes through
    without a word when every code has its Term, and otherwise stops at the
    first code that has none, having written that one line. *)
Lemma merge_loop_events (items : dict (list string)) :
  forall terms,
    NoDup (keys terms) ->
    (forall k vs, In (k, vs) items -> vs <> []) ->
    gfor_each merge_item items terms = ([], Ok (merged items terms))
    \/ exists k,
        In k (keys items) /\ dict_get terms k = None
        /\ gfor_each merge_item items terms
           = ([Write (unresolved_message k)],
              Raise (AttributeError "append_relationship")).
Proof.
  induction items as [|[k vs] items IH]; intros terms Hnd Hne.
  - left. simpl. unfold gret. do 2 f_equal. unfold merged.
    rewrite <- (map_id terms) at 1. apply map_ext.
    intros [k' t]. simpl. now rewrite append_edges_nil.
  - assert (Hstep : gfor_each merge_item ((k, vs) :: items) terms
                    = gbind (merge_item terms (k, vs))
                        (gfor_each merge_item items)) by reflexivity.
    rewrite Hstep. clear Hstep.
    destruct (dict_get terms k) as [t0|] eqn:Et.
    + assert (Hm : merge_item terms (k, vs)
                   = ([], Ok (map (add_parts k vs) terms))).
      { unfold merge_item. rewrite Et. rewrite attach_loop by exact Hnd.
        reflexivity. }
      rewrite Hm. cbn [gbind].
      destruct (IH (map (add_parts k vs) terms))
        as [Hok | (k' & Hin & Hk' & Hr)].
      * now rewrite keys_add_parts.
      * intros k' vs' Hin. apply (Hne k' vs'). now right.
      * left. rewrite Hok. cbn [app]. now rewrite merged_cons.
      * right. exists k'. split; [now right|]. split; [|now rewrite Hr].
        apply dict_get_None. apply dict_get_None in Hk'.
        now rewrite keys_add_parts in Hk'.
    + right. exists k. split; [now left|]. split; [exact Et|].
      destruct vs as [|x vs]; [now elim (Hne k [] (or_introl eq_refl))|].
      unfold merge_item. rewrite Et. reflexivity.
Qed.

Lemma link_map_lists_nonempty (lines : list string) (rv : dict (list string)) :
  for_each link_line lines [] = Ok rv ->
  forall k vs,
    In (k, vs) (map (fun kv => (fst kv, sorted (snd kv))) rv) -> vs <> [].
Proof.
  intros E k vs Hin. apply in_map_iff in Hin.
  destruct Hin as ([k' v] & [= <- <-] & Hin). simpl.
  destruct (link_loop _ _ _ E (NoDup_nil _)) as (Hnd & _ & _ & Hkeys).
  assert (Hv := link_values _ _ k' E).
  rewrite (In_dict_get _ _ _ Hnd Hin) in Hv. rewrite Hv.
  destruct (Hkeys k') as [[] | Hpos].
  { change k' with (fst (k', v)). now apply in_map. }
  destruct (link_count lines k'); [lia | discriminate].
Qed.

Lemma link_map_item (lines : list string) (rv : dict (list string))
  (k : string) :
  for_each link_line lines [] = Ok rv ->
  In k (link_codes lines) ->
  exists x vs, In (k, x :: vs) (map (fun kv => (fst kv, sorted (snd kv))) rv).
Proof.
  intros E Hk. apply link_count_pos_iff in Hk.
  assert (Hv := link_values _ _ k E).
  destruct (link_count lines k) as [|n]; [lia|].
  destruct (dict_get rv k) as [v|] eqn:Ev; [|discriminate].
  exists k, (repeat k n). change (k :: repeat k n) with (repeat k (S n)).
  rewrite <- Hv. apply in_map_iff. exists (k, v). split; [reflexivity|].
  now apply dict_get_In.
Qed.

(** The three ways [_iter_genome_terms] runs: an exception of the listing
    or of the link table before anything else; the report of an unresolved
    code followed at once by [AttributeError]; or all the Terms, and
    nothing written. *)
Lemma genome_terms_runs (list_path link_path : string) (g : KEGGGenome) :
  (exists e,
      _iter_genome_terms list_path link_path g = ([], Raise e)
      /\ (for_each (listing_line g) (map strip (open_lines list_path)) []
          = Raise e
          \/ (exists terms,
                 for_each (listing_line g) (map strip (open_lines list_path))
                   [] = Ok terms)
             /\ _get_link_pathway_map link_path = Raise e))
  \/ (exists k,
         In k (link_codes (open_lines link_path))
         /\ ~ In k (listing_codes (open_lines list_path))
         /\ _iter_genome_terms list_path link_path g
            = ([Write (unresolved_message k)],
               Raise (AttributeError "append_relationship")))
  \/ (exists terms link_map,
         for_each (listing_line g) (map strip (open_lines list_path)) []
         = Ok terms
         /\ _get_link_pathway_map link_path = Ok link_map
         /\ (forall k, In k (link_codes (open_lines link_path)) ->
                       In k (listing_codes (open_lines list_path)))
         /\ _iter_genome_terms list_path link_path g
            = (map Yield (values (merged link_map terms)), Ok tt)).
Proof.
  unfold _iter_genome_terms.
  destruct (for_each (listing_line g) _ []) as [terms|e] eqn:El.
  2:{ left. exists e. split; [reflexivity | now left]. }
  destruct (_get_link_pathway_map link_path) as [link_map|e] eqn:Ek.
  2:{ left. exists e. split; [reflexivity|]. right. split; [eauto | reflexivity]. }
  right. unfold _get_link_pathway_map in Ek.
  destruct (for_each link_line _ []) as [rv|e] eqn:Erv; [|discriminate].
  simpl in Ek. injection Ek as <-.
  destruct (listing_loop g _ _ _ El (NoDup_nil _)) as (Hnd & _).
  destruct (link_loop _ _ _ Erv (NoDup_nil _)) as (_ & _ & _ & Hkeys).
  assert (Hcodes := fun k => listing_loop_codes g _ terms k El).
  destruct (merge_loop_events _ terms Hnd (link_map_lists_nonempty _ _ Erv))
    as [Hok | (k & Hin & Hk & Hr)].
  - right. exists terms. eexists. split; [reflexivity|].
    split; [reflexivity|]. cbn [glift gbind app]. rewrite Hok.
    cbn [gbind yield_from app]. split; [|reflexivity].
    intros k Hk. rewrite <- listing_codes_strip. apply Hcodes.
    destruct (link_map_item _ rv k Erv Hk) as (x & vs & Hitem).
    destruct (dict_get terms k) as [t|] eqn:Et; [discriminate|]. exfalso.
    assert (Hraise := merge_loop_unresolved _ terms k x vs Hnd Hitem Et).
    rewrite Hok in Hraise. discriminate.
  - left. exists k. cbn [glift gbind app]. rewrite Hr. cbn [gbind].
    split; [|split; [|reflexivity]].
    + apply link_count_pos_iff.
      assert (Hk' : keys (map (fun kv => (fst kv, sorted (snd kv))) rv)
                    = keys rv) by (unfold keys; now rewrite map_map).
      rewrite Hk' in Hin. destruct (Hkeys k Hin) as [[] | Hpos]. exact Hpos.
    + rewrite <- listing_codes_strip. intros Hc. apply Hcodes in Hc.
      now apply Hc.
Qed.

Lemma written_map_Yield {Y : Type} (l : list Y) : written (map Yield l) = [].
Proof. induction l as [|y l IH]; simpl; [reflexivity | exact IH]. Qed.

(** X3: [_iter_genome_terms] yields all the Terms of the genome or none: a
    run that ends by an exception has yielded nothing, and has written at
    most one line. *)
Theorem genome_terms_all_or_nothing (list_path link_path : string)
  (g : KEGGGenome) (e : exn) :
  snd (_iter_genome_terms list_path link_path g) = Raise e ->
  yielded (fst (_iter_genome_terms list_path link_path g)) = []
  /\ List.length (fst (_iter_genome_terms list_path link_path g)) <= 1.
Proof.
  destruct (genome_terms_runs list_path link_path g)
    as [(e' & -> & _) | [(k & _ & _ & ->) | (terms & lm & _ & _ & _ & ->)]];
    simpl; intros H; [auto | auto | discriminate].
Qed.

(** X4: [_iter_genome_terms] ends normally exactly when every line of the
    listing has two fields and a numeric character in its code, every line
    of the link table has two fields, and every pathway code of the link
    table is a code of the listing. *)
Theorem genome_terms_end_normally_iff (list_path link_path : string)
  (g : KEGGGenome) :
  snd (_iter_genome_terms list_path link_path g) = Ok tt
  <-> (forall line, In line (open_lines list_path) -> listing_ok line)
      /\ (forall line, In line (open_lines link_path) ->
                       List.length (split tab (strip line)) = 2)
      /\ (forall k, In k (link_codes (open_lines link_path)) ->
                    In k (listing_codes (open_lines list_path))).
Proof.
  destruct (genome_terms_runs list_path link_path g)
    as [(e & -> & Hwhy) | [(k & Hk & Hnot & ->)
                          | (terms & lm & El & Ek & Hres & ->)]]; simpl.
  - split; [discriminate|]. intros (Hlist & Hfields & _). exfalso.
    assert (Hall : exists terms,
               for_each (listing_line g) (map strip (open_lines list_path)) []
               = Ok terms).
    { apply for_each_all_ok. intros s x Hx. apply in_map_iff in Hx.
      destruct Hx as (raw & <- & Hraw).
      apply listing_line_ok_iff, listing_ok_strip, Hlist, Hraw. }
    destruct Hall as [terms Hterms].
    destruct Hwhy as [Hraise | [_ Hraise]].
    + rewrite Hterms in Hraise. discriminate.
    + destruct (link_map_fields_ok link_path Hfields) as [m Hm].
      rewrite Hm in Hraise. discriminate.
  - split; [discriminate|]. intros (_ & _ & Hres). now elim Hnot; apply Hres.
  - split; [intros _ | reflexivity]. split; [|split; [|exact Hres]].
    + intros line Hin. apply listing_ok_strip.
      destruct (for_each_ok_each _ _ _ _ El (strip line)) as (s1 & s2 & Hl).
      * now apply in_map.
      * apply (listing_line_ok_iff g s1). eauto.
    + exact (link_map_ok_fields link_path lm Ek).
Qed.

Lemma listing_loop_keys (g : KEGGGenome) (lines : list string) :
  forall terms0 terms,
    for_each (listing_line g) lines terms0 = Ok terms ->
    keys terms
    = keys terms0
      ++ filter (fresh (keys terms0)) (first_occurrences (listing_codes lines)).
Proof.
  induction lines as [|line lines IH]; simpl; intros terms0 terms H.
  - injection H as <-. simpl. now rewrite app_nil_r.
  - destruct (listing_line g terms0 line) as [terms1|e] eqn:E;
      [simpl in H | discriminate].
    apply listing_line_ok in E. destruct E as (k1 & n1 & c1 & He & _ & ->).
    specialize (IH _ _ H).
    unfold listing_codes. simpl. rewrite He. simpl.
    fold (listing_codes lines).
    eapply keys_first_occurrences_step. exact IH.
Qed.

Lemma merged_identifiers (link_map : dict (list string)) (terms : dict Term) :
  (forall k t, In (k, t) terms -> identifier (reference t) = k) ->
  map (fun t => identifier (reference t)) (values (merged link_map terms))
  = keys terms.
Proof.
  intros Hid. unfold values, merged, keys. rewrite !map_map.
  apply map_ext_in. intros [k t] Hin. simpl. now apply Hid.
Qed.

(** X5: in a run that ends normally the Terms come in the order of the
    listing, one for each pathway code, at the place of the first line
    that has the code (a later line with the same code changes the Term,
    not its place). *)
Theorem genome_terms_in_listing_order (list_path link_path : string)
  (g : KEGGGenome) (es : list (event Term)) :
  _iter_genome_terms list_path link_path g = (es, Ok tt) ->
  map (fun t => identifier (reference t)) (yielded es)
  = first_occurrences (listing_codes (open_lines list_path)).
Proof.
  intros Hrun.
  destruct (genome_terms_runs list_path link_path g)
    as [(e & Heq & _) | [(k & _ & _ & Heq)
                        | (terms & lm & El & _ & _ & Heq)]];
    rewrite Hrun in Heq; try discriminate.
  injection Heq as ->. rewrite yielded_map_Yield.
  destruct (listing_loop g _ _ _ El (NoDup_nil _)) as (Hnd & Hget & _).
  rewrite merged_identifiers.
  - rewrite (listing_loop_keys g _ _ _ El). simpl.
    now rewrite fresh_nil, listing_codes_strip.
  - intros k t Hin. apply (In_dict_get _ _ _ Hnd) in Hin.
    destruct (Hget k t Hin) as [(n & c & _ & _ & ->) | [_ Hno]];
      [reflexivity | discriminate].
Qed.

(** X6: a yielded Term, whole: the identity the last listing line with its
    code gives it; then its relationships, first the [species_specific]
    edge, then the edge to the genome, then one [has_part] edge for each
    line of the link table with its code, each to the namespace
    [kegg.genes] and to the Term's own code; and the species the genome
    has. *)
Theorem genome_term_shape (list_path link_path : string) (g : KEGGGenome)
  (t : Term) :
  In t (yielded (fst (_iter_genome_terms list_path link_path g))) ->
  exists name code,
    last_listed (open_lines list_path) (identifier (reference t)) name
    /\ pathway_code_of (identifier (reference t)) = Ok code
    /\ t = mkTerm
             (mkReference KEGG_PATHWAY_PREFIX (identifier (reference t))
                (Some name))
             ([(species_specific,
                mkReference KEGG_PATHWAY_PREFIX ("map" ++ code)%string None);
               (from_kegg_species, get_reference g)]
              ++ repeat (has_part,
                         mkReference "kegg.genes" (identifier (reference t))
                           None)
                   (link_count (open_lines link_path)
                      (identifier (reference t))))
             (taxonomy_id g).
Proof.
  intros Hin. apply genome_terms_member in Hin.
  destruct Hin as (k & n & c & rv & Hl & Hc & Hrv & _ & ->).
  exists n, c. simpl. split; [exact Hl|]. split; [exact Hc|].
  rewrite (link_values _ _ k Hrv). unfold append_edges, listed_term, part_edges.
  simpl. now rewrite map_repeat.
Qed.

(** X7: the report of an unresolved pathway is never the end of it: either
    [_iter_genome_terms] writes nothing, or it writes the one line for one
    code that the link table has and the listing has not, and ends at once
    by [AttributeError] without a Term. *)
Theorem genome_terms_report_is_fatal (list_path link_path : string)
  (g : KEGGGenome) :
  written (fst (_iter_genome_terms list_path link_path g)) = []
  \/ exists k,
      In k (link_codes (open_lines link_path))
      /\ ~ In k (listing_codes (open_lines list_path))
      /\ _iter_genome_terms list_path link_path g
         = ([Write (unresolved_message k)],
            Raise (AttributeError "append_relationship")).
Proof.
  destruct (genome_terms_runs list_path link_path g)
    as [(e & -> & _) | [(k & Hk & Hnot & Heq)
                       | (terms & lm & _ & _ & _ & ->)]].
  - now left.
  - right. eauto.
  - left. simpl. apply written_map_Yield.
Qed.

(** X8: the first line of the listing that is not accepted decides how
    [_iter_genome_terms] ends: by the exception of that line, with nothing
    yielded or written, whatever comes after it in the listing and whatever
    the link table holds. *)
Theorem genome_terms_first_bad_listing_line (list_path link_path : string)
  (g : KEGGGenome) (l1 l2 : list string) (line : string) (e : exn) :
  open_lines list_path = l1 ++ line :: l2 ->
  (forall l, In l l1 -> listing_ok l) ->
  listing_line g [] line = Raise e ->
  _iter_genome_terms list_path link_path g = ([], Raise e).
Proof.
  intros Heq Hl1 Hline. unfold _iter_genome_terms. rewrite Heq, map_app.
  simpl map.
  rewrite (for_each_first_raise (listing_line g) (map strip l1)
             (map strip l2) (strip line) e).
  - reflexivity.
  - intros s y Hy. apply in_map_iff in Hy. destruct Hy as (raw & <- & Hraw).
    apply listing_line_ok_iff, listing_ok_strip, Hl1, Hraw.
  - intros s. rewrite listing_line_strip.
    now apply (listing_line_raise g [] s).
Qed.

(** *** A line with an empty field *)

Lemma lstrip_all_space (w : string) : all_space w = true -> lstrip w = "".
Proof.
  unfold all_space, chars. induction w as [|c w IH]; simpl; [reflexivity|].
  intros H. apply andb_true_iff in H. destruct H as [Hc Hw].
  rewrite Hc. now apply IH.
Qed.

Lemma rstrip_all_space (w : string) : all_space w = true -> rstrip w = "".
Proof.
  unfold all_space, chars. induction w as [|c w IH]; simpl; [reflexivity|].
  intros H. apply andb_true_iff in H. destruct H as [Hc Hw].
  rewrite (IH Hw). now rewrite Hc.
Qed.

Lemma rstrip_app_space (a w : string) :
  all_space w = true -> rstrip (a ++ w) = rstrip a.
Proof.
  intros Hw. induction a as [|c a IH]; simpl.
  - now apply rstrip_all_space.
  - now rewrite IH.
Qed.

Lemma lstrip_space_app (w a : string) :
  all_space w = true -> lstrip (w ++ a) = lstrip a.
Proof.
  unfold all_space, chars. induction w as [|c w IH]; simpl; [reflexivity|].
  intros H. apply andb_true_iff in H. destruct H as [Hc Hw].
  rewrite Hc. now apply IH.
Qed.

Lemma strip_app_space (a w : string) :
  all_space w = true -> strip (a ++ w) = strip a.
Proof.
  intros Hw. unfold strip. induction a as [|c a IH]; simpl.
  - now rewrite (lstrip_all_space w Hw).
  - destruct (isspace c); [exact IH|].
    change (String c (a ++ w)) with (String c a ++ w)%string.
    now apply rstrip_app_space.
Qed.

Lemma strip_space_app (w a : string) :
  all_space w = true -> strip (w ++ a) = strip a.
Proof. intros Hw. unfold strip. now rewrite lstrip_space_app. Qed.

Lemma no_tab_cons (c : ascii) (s : string) :
  no_tab (String c s) = negb (Ascii.eqb tab c) && no_tab s.
Proof.
  unfold no_tab, chars. cbn [list_ascii_of_string existsb].
  apply negb_orb.
Qed.

Lemma no_tab_lstrip (s : string) : no_tab s = true -> no_tab (lstrip s) = true.
Proof.
  induction s as [|c s IH]; [reflexivity|]. cbn [lstrip]. intros H.
  destruct (isspace c); [|exact H].
  apply IH. rewrite no_tab_cons in H. apply andb_true_iff in H. apply H.
Qed.

Lemma no_tab_rstrip (s : string) : no_tab s = true -> no_tab (rstrip s) = true.
Proof.
  induction s as [|c s IH]; [reflexivity|]. cbn [rstrip]. intros H.
  rewrite no_tab_cons in H. apply andb_true_iff in H. destruct H as [Hc Hs].
  specialize (IH Hs). destruct (rstrip s) as [|d r].
  - destruct (isspace c); [reflexivity|]. rewrite no_tab_cons, Hc.
    reflexivity.
  - rewrite no_tab_cons, Hc. exact IH.
Qed.

Lemma split_no_tab (s : string) : no_tab s = true -> split tab s = [s].
Proof.
  induction s as [|c s IH]; [reflexivity|]. cbn [split]. intros H.
  rewrite no_tab_cons in H. apply andb_true_iff in H. destruct H as [Hc Hs].
  apply negb_true_iff in Hc. rewrite Ascii.eqb_sym, Hc.
  now rewrite (IH Hs).
Qed.

Lemma split_strip_no_tab (a : string) :
  no_tab a = true -> split tab (strip a) = [strip a].
Proof.
  intros H. apply split_no_tab. unfold strip.
  now apply no_tab_rstrip, no_tab_lstrip.
Qed.

(** X9: [strip] takes a tab at either end of a line for white space. A line
    whose second field is empty or blank ([a], a tab, white space), or whose
    first field is (white space, a tab, [a]), is left with the one field [a]
    and raises the [ValueError] of the tuple assignment, in the listing as
    in the link table. *)
Theorem line_with_empty_field_raises (a w : string) :
  no_tab a = true ->
  all_space w = true ->
  (forall g terms,
      listing_line g terms (a ++ String tab w) = Raise (ValueError (Unpack 2 1))
      /\ listing_line g terms (w ++ String tab a)
         = Raise (ValueError (Unpack 2 1)))
  /\ (forall rv,
         link_line rv (a ++ String tab w) = Raise (ValueError (Unpack 2 1))
         /\ link_line rv (w ++ String tab a)
            = Raise (ValueError (Unpack 2 1))).
Proof.
  intros Ha Hw.
  assert (Htw : all_space (String tab w) = true).
  { unfold all_space, chars in *. simpl. exact Hw. }
  assert (H1 : strip (a ++ String tab w) = strip a)
    by (now apply strip_app_space).
  assert (H2 : strip (w ++ String tab a) = strip a).
  { rewrite (strip_space_app w) by exact Hw.
    change (String tab a) with (String tab "" ++ a)%string.
    now apply strip_space_app. }
  split.
  - intros g terms. rewrite !listing_line_eq, H1, H2.
    rewrite (split_strip_no_tab a Ha). split; reflexivity.
  - intros rv. unfold link_line. rewrite H1, H2.
    rewrite (split_strip_no_tab a Ha). split; reflexivity.
Qed.

(** *** The generic code of a code *)

(** X10: the generic code depends on the pathway code only through what
    starts at its first numeric character: with any letters in front of it
    the derived code is derived again. In particular it is derived from
    itself and from [map] followed by it, so that the map identifier of a
    map identifier is the same identifier, and the pathways of two
    organisms with the same number go to the same map. *)
Theorem pathway_code_whatever_the_letters (p code before : string) :
  pathway_code_of p = Ok code ->
  existsb isnumeric (chars before) = false ->
  pathway_code_of (before ++ code) = Ok code.
Proof.
  intros Hp Hb. apply pathway_code_of_ok in Hp.
  destruct Hp as (b & c & rest & _ & -> & _ & Hc).
  now apply pathway_code_of_split.
Qed.

(** *** The driver, genome after genome *)

Lemma gbind_gret_l {Y A B : Type} (a : A) (f : A -> Gen Y B) :
  gbind (gret a) f = f a.
Proof. unfold gbind, gret. now destruct (f a). Qed.

Lemma gbind_ext {Y A B : Type} (m : Gen Y A) (f f' : A -> Gen Y B) :
  (forall a, f a = f' a) -> gbind m f = gbind m f'.
Proof. intros H. destruct m as [es [a|e]]; simpl; [now rewrite H | reflexivity]. Qed.

Lemma gfor_each_app {Y X S : Type} (body : S -> X -> Gen Y S)
  (l1 l2 : list X) :
  forall s,
    gfor_each body (l1 ++ l2) s
    = gbind (gfor_each body l1 s) (gfor_each body l2).
Proof.
  induction l1 as [|x l1 IH]; intros s.
  - simpl app. cbn [gfor_each]. now rewrite gbind_gret_l.
  - simpl app. cbn [gfor_each].
    destruct (body s x) as [es [s1|e]]; [|reflexivity].
    cbn [gbind]. rewrite IH.
    destruct (gfor_each body l1 s1) as [es1 [s2|e]]; cbn [gbind].
    + destruct (gfor_each body l2 s2) as [es2 r]. now rewrite app_assoc.
    + reflexivity.
Qed.

Lemma paths_loop_converse (genomes : list KEGGGenome) :
  snd (gfor_each (fun _ => paths_of_genome) genomes tt) = Ok tt ->
  forall g e, In g genomes -> fetch_paths g = Raise e ->
              exists code url, e = HTTPError code url.
Proof.
  induction genomes as [|h genomes IH]; intros Hend g e Hin Hf;
    [contradiction|].
  cbn [gfor_each] in Hend. assert (Hh := paths_of_genome_cases h).
  destruct Hin as [-> | Hin].
  - rewrite Hf in Hh. destruct e as [w|a|code url|r]; eauto;
      rewrite Hh in Hend; discriminate.
  - destruct (paths_of_genome h) as [es [[]|e']]; [|discriminate].
    cbn [gbind] in Hend.
    destruct (gfor_each (fun _ => paths_of_genome) genomes tt) as [es' r]
      eqn:E. simpl in Hend. apply (IH Hend g e Hin Hf).
Qed.

(** X11: the driver stops at the first genome whose fetch raises something
    that is not an [HTTPError]: that exception ends it, nothing is written
    for the genome, and what it has yielded and written is what the genomes
    before that one gave; the genomes after it are not fetched. *)
Theorem driver_stops_at_other_exception (l1 l2 : list KEGGGenome)
  (g : KEGGGenome) (e : exn) :
  iter_kegg_genomes = l1 ++ g :: l2 ->
  (forall h e', In h l1 -> fetch_paths h = Raise e' ->
                exists code url, e' = HTTPError code url) ->
  fetch_paths g = Raise e ->
  (forall code url, e <> HTTPError code url) ->
  snd iter_kegg_pathway_paths = Raise e
  /\ yielded (fst iter_kegg_pathway_paths) = flat_map fetched l1
  /\ written (fst iter_kegg_pathway_paths) = flat_map reported l1.
Proof.
  intros Heq Hl1 Hf He. unfold iter_kegg_pathway_paths.
  rewrite Heq, gfor_each_app.
  destruct (paths_loop l1 Hl1) as (Hend & Hy & Hw).
  destruct (gfor_each (fun _ => paths_of_genome) l1 tt) as [es1 r1].
  simpl in Hend, Hy, Hw. subst r1. cbn [gbind gfor_each].
  assert (Hg : paths_of_genome g = ([], Raise e)).
  { assert (Hc := paths_of_genome_cases g). rewrite Hf in Hc.
    destruct e as [w|a|code url|r]; try exact Hc. now elim (He code url). }
  rewrite Hg. cbn [gbind fst snd]. rewrite app_nil_r. auto.
Qed.

Lemma paths_skip_not_found (l1 l2 : list KEGGGenome) (g : KEGGGenome)
  (url : string) :
  fetch_paths g = Raise (HTTPError 404 url) ->
  gfor_each (fun _ => paths_of_genome) (l1 ++ g :: l2) tt
  = gfor_each (fun _ => paths_of_genome) (l1 ++ l2) tt.
Proof.
  intros Hf. rewrite !gfor_each_app. apply gbind_ext. intros [].
  cbn [gfor_each]. assert (Hc := paths_of_genome_cases g).
  rewrite Hf in Hc. simpl in Hc. rewrite Hc.
  apply (gbind_gret_l tt).
Qed.

(** *** [iter_terms], genome after genome *)

Lemma iter_terms_eq :
  iter_terms
  = gbind _iter_map_terms
      (fun _ => gfor_gen iter_kegg_pathway_paths genome_run).
Proof. reflexivity. Qed.

Lemma gfor_gen_events_ok_iff {X Y : Type} (body : X -> Gen Y unit)
  (ending : Res unit) (es : list (event X)) :
  snd (gfor_gen_events es ending body) = Ok tt
  <-> ending = Ok tt
      /\ forall x, In x (yielded es) -> snd (body x) = Ok tt.
Proof.
  induction es as [|[x|msg] es IH]; cbn [gfor_gen_events yielded].
  - simpl. split; [intros ->; split; [reflexivity | intros ? []] | now intros [-> _]].
  - destruct (body x) as [es1 [[]|e]] eqn:Eb; cbn [gbind].
    + destruct (gfor_gen_events es ending body) as [es2 r]. simpl in *.
      rewrite IH. split.
      * intros [He Hall]. split; [exact He|].
        intros y [<- | Hy]; [now rewrite Eb | now apply Hall].
      * intros [He Hall]. split; [exact He|]. intros y Hy. apply Hall.
        now right.
    + simpl. split; [discriminate|]. intros [_ Hall].
      specialize (Hall x (or_introl eq_refl)). rewrite Eb in Hall.
      discriminate.
  - unfold tqdm_write. cbn [gbind].
    destruct (gfor_gen_events es ending body) as [es2 r]. simpl in *.
    exact IH.
Qed.

Lemma gfor_gen_events_stop {X Y : Type} (body : X -> Gen Y unit)
  (ending : Res unit) (x : X) (xs2 : list X) (e : exn) :
  snd (body x) = Raise e ->
  forall es xs1,
    yielded es = xs1 ++ x :: xs2 ->
    (forall y, In y xs1 -> snd (body y) = Ok tt) ->
    snd (gfor_gen_events es ending body) = Raise e
    /\ yielded (fst (gfor_gen_events es ending body))
       = flat_map (fun y => yielded (fst (body y))) xs1
         ++ yielded (fst (body x)).
Proof.
  intros Hx. induction es as [|[y|msg] es IH]; intros xs1 Hy Hok;
    cbn [gfor_gen_events yielded] in *.
  - destruct xs1; discriminate.
  - destruct xs1 as [|y' xs1]; simpl in Hy; injection Hy as -> Hy.
    + destruct (body x) as [es1 r]. simpl in Hx. subst r. simpl. auto.
    + assert (Hy' := Hok y' (or_introl eq_refl)).
      destruct (IH xs1 Hy) as [He Hyd].
      { intros z Hz. apply Hok. now right. }
      cbn [flat_map].
      destruct (body y') as [es1 r]. simpl in Hy'. subst r. cbn [gbind].
      destruct (gfor_gen_events es ending body) as [es2 r]. simpl in *.
      rewrite yielded_app, Hyd, app_assoc. auto.
  - unfold tqdm_write. cbn [gbind].
    destruct (IH xs1 Hy Hok) as [He Hyd].
    destruct (gfor_gen_events es ending body) as [es2 r]. simpl in *. auto.
Qed.

Lemma gfor_gen_events_all_ok {X Y : Type} (body : X -> Gen Y unit)
  (ending : Res unit) (es : list (event X)) :
  (forall x, In x (yielded es) ->
             snd (body x) = Ok tt /\ written (fst (body x)) = []) ->
  snd (gfor_gen_events es ending body) = ending
  /\ written (fst (gfor_gen_events es ending body)) = written es
  /\ yielded (fst (gfor_gen_events es ending body))
     = flat_map (fun x => yielded (fst (body x))) (yielded es).
Proof.
  induction es as [|[x|msg] es IH]; cbn [gfor_gen_events yielded written];
    intros Hall.
  - simpl. auto.
  - destruct (Hall x (or_introl eq_refl)) as [Hx Hwx]. cbn [flat_map].
    destruct (body x) as [es1 r]. simpl in Hx, Hwx. subst r. cbn [gbind].
    destruct IH as (He & Hw & Hy).
    { intros y Hy. apply Hall. now right. }
    destruct (gfor_gen_events es ending body) as [es2 r]. simpl in *.
    rewrite written_app, yielded_app, Hw, Hy, Hwx. auto.
  - unfold tqdm_write. cbn [gbind].
    destruct (IH Hall) as (He & Hw & Hy).
    destruct (gfor_gen_events es ending body) as [es2 r]. simpl in *.
    now rewrite Hw, Hy.
Qed.

Lemma genome_run_quiet (x : KEGGGenome * string * string) :
  snd (genome_run x) = Ok tt -> written (fst (genome_run x)) = [].
Proof.
  destruct x as [[g a] b]. unfold genome_run. intros H.
  destruct (genome_terms_runs a b g)
    as [(e & Heq & _) | [(k & _ & _ & Heq) | (terms & lm & _ & _ & _ & Heq)]];
    rewrite Heq in *; try discriminate.
  simpl. apply written_map_Yield.
Qed.

Lemma In_fetched (genomes : list KEGGGenome)
  (x : KEGGGenome * string * string) :
  In x (flat_map fetched genomes)
  <-> exists g a b, In g genomes /\ fetch_paths g = Ok (a, b) /\ x = (g, a, b).
Proof.
  rewrite in_flat_map. unfold fetched. split.
  - intros (g & Hg & Hx). destruct (fetch_paths g) as [[a b]|e] eqn:E;
      [|contradiction].
    destruct Hx as [<- | []]. exists g, a, b. auto.
  - intros (g & a & b & Hg & Hf & ->). exists g. split; [exact Hg|].
    rewrite Hf. now left.
Qed.

Lemma genome_outcome_fetch (g : KEGGGenome) (e : exn) :
  genome_outcome g = Ok tt ->
  fetch_paths g = Raise e -> exists code url, e = HTTPError code url.
Proof.
  unfold genome_outcome. intros H Hf. rewrite Hf in H.
  destruct e as [w|a|code url|r]; try discriminate. eauto.
Qed.

Lemma genome_outcome_run (genomes : list KEGGGenome) :
  (forall g, In g genomes -> genome_outcome g = Ok tt) ->
  forall x, In x (flat_map fetched genomes) ->
            snd (genome_run x) = Ok tt /\ written (fst (genome_run x)) = [].
Proof.
  intros Hall x Hx. apply In_fetched in Hx.
  destruct Hx as (g & a & b & Hg & Hf & ->).
  assert (Hrun : snd (genome_run (g, a, b)) = Ok tt).
  { specialize (Hall g Hg). unfold genome_outcome in Hall.
    now rewrite Hf in Hall. }
  split; [exact Hrun | now apply genome_run_quiet].
Qed.

Lemma map_terms_events :
  forall catalog,
    ensure_list_pathways = Ok catalog ->
    _iter_map_terms
    = (map Yield
         (map (fun kv =>
                 new_Term (mkReference KEGG_PATHWAY_PREFIX (fst kv)
                             (Some (snd kv)))) catalog),
       Ok tt).
Proof. intros catalog H. unfold _iter_map_terms. now rewrite H. Qed.

Lemma iter_terms_ok_genomes :
  snd iter_terms = Ok tt ->
  (exists catalog, ensure_list_pathways = Ok catalog)
  /\ forall g, In g iter_kegg_genomes -> genome_outcome g = Ok tt.
Proof.
  rewrite iter_terms_eq. unfold gfor_gen.
  destruct ensure_list_pathways as [catalog|e] eqn:Ecat.
  2:{ unfold _iter_map_terms. rewrite Ecat. simpl. discriminate. }
  rewrite (map_terms_events catalog Ecat). cbn [gbind].
  assert (Hiff := gfor_gen_events_ok_iff genome_run
                    (snd iter_kegg_pathway_paths)
                    (fst iter_kegg_pathway_paths)).
  destruct (gfor_gen_events _ _ genome_run) as [es r]. simpl in *.
  rewrite Hiff. clear Hiff. unfold iter_kegg_pathway_paths.
  intros [Hend Hruns]. split; [eauto|]. intros g Hg.
  assert (Hhttp := paths_loop_converse _ Hend).
  destruct (paths_loop _ Hhttp) as (_ & Hy & _). rewrite Hy in Hruns.
  unfold genome_outcome. destruct (fetch_paths g) as [[a b]|e] eqn:Ef.
  - apply (Hruns (g, a, b)). apply In_fetched. exists g, a, b. auto.
  - destruct (Hhttp g e Hg Ef) as (code & url & ->). reflexivity.
Qed.

(** X12: [iter_terms] ends normally exactly when the catalog is obtained
    and the run goes well for every genome: its fetch succeeds and
    [_iter_genome_terms] ends normally on the two files, or its fetch
    raises an [HTTPError], of any status. *)
Theorem iter_terms_ends_normally_iff :
  snd iter_terms = Ok tt
  <-> (exists catalog, ensure_list_pathways = Ok catalog)
      /\ forall g, In g iter_kegg_genomes -> genome_outcome g = Ok tt.
Proof.
  split; [apply iter_terms_ok_genomes|].
  intros [[catalog Ecat] Hall].
  assert (Hhttp : forall g e, In g iter_kegg_genomes ->
                              fetch_paths g = Raise e ->
                              exists code url, e = HTTPError code url).
  { intros g e Hg. apply genome_outcome_fetch. now apply Hall. }
  destruct (paths_loop _ Hhttp) as (Hend & Hy & _).
  fold iter_kegg_pathway_paths in Hend, Hy.
  rewrite iter_terms_eq, (map_terms_events catalog Ecat). cbn [gbind].
  unfold gfor_gen.
  assert (Hiff := gfor_gen_events_ok_iff genome_run
                    (snd iter_kegg_pathway_paths)
                    (fst iter_kegg_pathway_paths)).
  destruct (gfor_gen_events _ _ genome_run) as [es r]. simpl in *.
  apply Hiff. split; [exact Hend|]. rewrite Hy. intros x Hx.
  now apply (genome_outcome_run _ Hall).
Qed.

(** X13: when [iter_terms] ends normally, it has yielded the Terms of the
    catalog and then the Terms of every genome whose files were fetched, in
    the order of the genomes, and what it has written is one line for each
    genome whose fetch raised an [HTTPError] of a status other than 404, in
    that order, and nothing else. *)
Theorem iter_terms_normal_run :
  snd iter_terms = Ok tt ->
  yielded (fst iter_terms)
  = yielded (fst _iter_map_terms)
    ++ flat_map genome_terms (flat_map fetched iter_kegg_genomes)
  /\ written (fst iter_terms) = flat_map reported iter_kegg_genomes.
Proof.
  intros Hend. destruct (iter_terms_ok_genomes Hend) as [[catalog Ecat] Hall].
  assert (Hhttp : forall g e, In g iter_kegg_genomes ->
                              fetch_paths g = Raise e ->
                              exists code url, e = HTTPError code url).
  { intros g e Hg. apply genome_outcome_fetch. now apply Hall. }
  destruct (paths_loop _ Hhttp) as (_ & Hy & Hw).
  fold iter_kegg_pathway_paths in Hy, Hw.
  rewrite iter_terms_eq, (map_terms_events catalog Ecat). cbn [gbind fst].
  unfold gfor_gen.
  destruct (gfor_gen_events_all_ok genome_run (snd iter_kegg_pathway_paths)
              (fst iter_kegg_pathway_paths)) as (_ & Hw' & Hy').
  { rewrite Hy. now apply genome_outcome_run. }
  destruct (gfor_gen_events _ _ genome_run) as [es r]. simpl in *.
  rewrite yielded_app, written_app, written_map_Yield, Hy', Hw', Hy, Hw.
  split; [|reflexivity]. f_equal. apply flat_map_ext. now intros [[g a] b].
Qed.

Lemma genome_run_raise_nothing (x : KEGGGenome * string * string) (e : exn) :
  snd (genome_run x) = Raise e -> yielded (fst (genome_run x)) = [].
Proof.
  destruct x as [[g a] b]. unfold genome_run. intros H.
  destruct (genome_terms_cases a b g)
    as [(terms & rv & es & _ & _ & Heq & _) | (es & e' & Heq & Hy)];
    rewrite Heq in *; [discriminate | exact Hy].
Qed.

(** X14: [iter_terms] stops at the first genome for which the run does not
    go well, whether its fetch raises something other than an [HTTPError]
    or [_iter_genome_terms] raises on its files: that exception ends
    [iter_terms]; the Terms of the catalog and of the genomes before that
    one have been yielded, none of that genome or of the genomes after
    it. *)
Theorem iter_terms_stops_at_first_failure (catalog : dict string)
  (l1 l2 : list KEGGGenome) (g : KEGGGenome) (e : exn) :
  ensure_list_pathways = Ok catalog ->
  iter_kegg_genomes = l1 ++ g :: l2 ->
  (forall h, In h l1 -> genome_outcome h = Ok tt) ->
  genome_outcome g = Raise e ->
  snd iter_terms = Raise e
  /\ yielded (fst iter_terms)
     = yielded (fst _iter_map_terms)
       ++ flat_map genome_terms (flat_map fetched l1).
Proof.
  intros Ecat Heq Hl1 Hg.
  assert (Hhttp : forall h e', In h l1 -> fetch_paths h = Raise e' ->
                               exists code url, e' = HTTPError code url).
  { intros h e' Hh. apply genome_outcome_fetch. now apply Hl1. }
  destruct (paths_loop l1 Hhttp) as (Hend1 & Hy1 & _).
  assert (Hruns := genome_outcome_run l1 Hl1).
  assert (Hdriver :
            exists es r,
              iter_kegg_pathway_paths = (es, r)
              /\ ((exists a b xs2,
                      fetch_paths g = Ok (a, b)
                      /\ yielded es = flat_map fetched l1 ++ (g, a, b) :: xs2)
                  \/ (r = Raise e /\ yielded es = flat_map fetched l1))).
  { unfold iter_kegg_pathway_paths. rewrite Heq, gfor_each_app.
    destruct (gfor_each (fun _ => paths_of_genome) l1 tt) as [es1 r1].
    simpl in Hend1, Hy1. subst r1. cbn [gbind gfor_each].
    assert (Hc := paths_of_genome_cases g). unfold genome_outcome in Hg.
    destruct (fetch_paths g) as [[a b]|e'] eqn:Ef.
    - rewrite Hc. cbn [gbind].
      destruct (gfor_each (fun _ => paths_of_genome) l2 tt) as [es2 r2].
      cbn [app]. do 2 eexists. split; [reflexivity|]. left.
      exists a, b, (yielded es2). split; [reflexivity|].
      rewrite yielded_app, Hy1. reflexivity.
    - destruct e' as [w|x|code url|r]; try discriminate;
        injection Hg as <-; rewrite Hc; cbn [gbind];
        do 2 eexists; (split; [reflexivity|]); right;
        rewrite app_nil_r; auto. }
  destruct Hdriver as (es & r & Hd & Hcase).
  rewrite iter_terms_eq, (map_terms_events catalog Ecat). cbn [gbind fst].
  unfold gfor_gen. rewrite Hd. cbn [fst snd].
  assert (Hgt : forall xs, flat_map (fun y => yielded (fst (genome_run y))) xs
                           = flat_map genome_terms xs).
  { intros xs. apply flat_map_ext. now intros [[h a] b]. }
  destruct Hcase as [(a & b & xs2 & Ef & Hy) | [-> Hy]].
  - assert (Hx : snd (genome_run (g, a, b)) = Raise e).
    { unfold genome_outcome in Hg. now rewrite Ef in Hg. }
    destruct (gfor_gen_events_stop genome_run r (g, a, b) xs2 e Hx es
                (flat_map fetched l1) Hy) as [He Hyd].
    { intros y Hin. now apply Hruns. }
    assert (Hnone := genome_run_raise_nothing (g, a, b) e Hx).
    destruct (gfor_gen_events es r genome_run) as [es' r']. simpl in *.
    split; [exact He|].
    rewrite yielded_app, yielded_map_Yield, Hyd, Hnone, app_nil_r, Hgt.
    reflexivity.
  - destruct (gfor_gen_events_all_ok genome_run (Raise e) es) as (He & _ & Hyd).
    { rewrite Hy. exact Hruns. }
    destruct (gfor_gen_events es (Raise e) genome_run) as [es' r']. simpl in *.
    split; [exact He|].
    rewrite yielded_app, yielded_map_Yield, Hyd, Hy, Hgt. reflexivity.
Qed.

(** *** Every line of the link table becomes one edge *)

Lemma list_sum_map_add {A : Type} (f g : A -> nat) (l : list A) :
  list_sum (map (fun x => f x + g x) l)
  = list_sum (map f l) + list_sum (map g l).
Proof. induction l as [|x l IH]; simpl; [reflexivity | rewrite IH; lia]. Qed.

Lemma list_sum_map_zero {A : Type} (f : A -> nat) (l : list A) :
  (forall x, In x l -> f x = 0) -> list_sum (map f l) = 0.
Proof.
  induction l as [|x l IH]; simpl; intros H; [reflexivity|].
  rewrite (H x (or_introl eq_refl)), IH; [reflexivity|].
  intros y Hy. apply H. now right.
Qed.

Lemma indicator_sum (ks : list string) (k0 : string) :
  NoDup ks -> In k0 ks ->
  list_sum (map (fun k => if String.eqb k0 k then 1 else 0) ks) = 1.
Proof.
  induction ks as [|k ks IH]; simpl; intros Hnd Hin; [contradiction|].
  inversion Hnd as [|? ? Hnot Hnd']; subst.
  destruct (String.eqb k0 k) eqn:E.
  - apply String.eqb_eq in E. subst k. rewrite list_sum_map_zero;
      [reflexivity|].
    intros x Hx. destruct (String.eqb k0 x) eqn:Ex; [|reflexivity].
    apply String.eqb_eq in Ex. subst x. contradiction.
  - apply String.eqb_neq in E. destruct Hin as [-> | Hin]; [now elim E|].
    now rewrite IH.
Qed.

Lemma link_count_sum (ks : list string) (lines : list string) :
  NoDup ks ->
  (forall line, In line lines -> exists k, link_key line = Some k /\ In k ks) ->
  list_sum (map (link_count lines) ks) = List.length lines.
Proof.
  intros Hnd. induction lines as [|line lines IH]; intros Hall.
  - apply list_sum_map_zero. reflexivity.
  - destruct (Hall line (or_introl eq_refl)) as (k0 & Hk0 & Hin).
    rewrite (map_ext (link_count (line :: lines))
               (fun k => (if String.eqb k0 k then 1 else 0)
                         + link_count lines k)).
    + rewrite list_sum_map_add, (indicator_sum ks k0 Hnd Hin), IH;
        [reflexivity|].
      intros l Hl. apply Hall. now right.
    + intros k. now rewrite link_count_cons, Hk0.
Qed.

(** X16: in a run that ends normally no line of the link table is lost and
    none is counted twice: the [has_part] edges of the yielded Terms are,
    in all, as many as the link table has lines. *)
Theorem genome_terms_edges_count (list_path link_path : string)
  (g : KEGGGenome) (es : list (event Term)) :
  _iter_genome_terms list_path link_path g = (es, Ok tt) ->
  list_sum (map (fun t => List.length (targets has_part t)) (yielded es))
  = List.length (open_lines link_path).
Proof.
  intros Hrun.
  assert (Hparts : forall t,
             In t (yielded es) ->
             List.length (targets has_part t)
             = link_count (open_lines link_path) (identifier (reference t))).
  { intros t Ht.
    assert (Hin : In t (yielded
                          (fst (_iter_genome_terms list_path link_path g))))
      by (now rewrite Hrun).
    apply genome_terms_parts in Hin. destruct Hin as (rv & Hrv & _ & Heq).
    rewrite <- (length_map identifier), Heq, (link_values _ _ _ Hrv).
    apply repeat_length. }
  destruct (genome_terms_runs list_path link_path g)
    as [(e & Heq & _) | [(k & _ & _ & Heq)
                        | (terms & lm & El & Ek & Hres & Heq)]];
    rewrite Hrun in Heq; try discriminate.
  injection Heq as Hes.
  rewrite (map_ext_in _ (fun t => link_count (open_lines link_path)
                                    (identifier (reference t))) _ Hparts).
  rewrite <- (map_map (fun t => identifier (reference t))
                (link_count (open_lines link_path))).
  destruct (listing_loop g _ _ _ El (NoDup_nil _)) as (Hnd & Hget & _).
  assert (Hids : map (fun t => identifier (reference t)) (yielded es)
                 = keys terms).
  { rewrite Hes, yielded_map_Yield. apply merged_identifiers.
    intros k t Hin. apply (In_dict_get _ _ _ Hnd) in Hin.
    destruct (Hget k t Hin) as [(n & c & _ & _ & ->) | [_ Hno]];
      [reflexivity | discriminate]. }
  rewrite Hids. apply link_count_sum; [exact Hnd|].
  intros line Hline.
  assert (Hf := link_map_ok_fields link_path lm Ek line Hline).
  apply link_key_fields in Hf.
  destruct (link_key line) as [k|] eqn:Hk; [|now elim Hf].
  exists k. split; [reflexivity|].
  assert (Hc : In k (listing_codes (open_lines list_path))).
  { apply Hres. apply In_link_codes. eauto. }
  rewrite <- listing_codes_strip in Hc.
  apply (listing_loop_codes g _ terms k El) in Hc.
  destruct (dict_get terms k) as [t|] eqn:Et; [|now elim Hc].
  apply dict_get_In in Et. change k with (fst (k, t)). now apply in_map.
Qed.

(** *** What every Term of [iter_terms] has *)

Lemma paths_of_genome_yield (g : KEGGGenome)
  (x : KEGGGenome * string * string) :
  In x (yielded (fst (paths_of_genome g))) -> exists a b, x = (g, a, b).
Proof.
  assert (Hc := paths_of_genome_cases g).
  destruct (fetch_paths g) as [[a b]|[w|a|code url|r]]; try rewrite Hc;
    simpl; try contradiction.
  - intros [<- | []]. eauto.
  - destruct (code =? 404)%Z; rewrite Hc; simpl; contradiction.
Qed.

Lemma paths_yield_genomes (genomes : list KEGGGenome)
  (x : KEGGGenome * string * string) :
  In x (yielded (fst (gfor_each (fun _ => paths_of_genome) genomes tt))) ->
  exists g a b, In g genomes /\ x = (g, a, b).
Proof.
  induction genomes as [|h genomes IH]; cbn [gfor_each]; [intros []|].
  assert (Hh := paths_of_genome_yield h x).
  destruct (paths_of_genome h) as [es [[]|e]]; cbn [gbind fst] in *.
  - destruct (gfor_each (fun _ => paths_of_genome) genomes tt) as [es' r].
    cbn [fst] in *. rewrite yielded_app, in_app_iff. intros [Hx | Hx].
    + destruct (Hh Hx) as (a & b & ->). exists h, a, b.
      split; [now left | reflexivity].
    + destruct (IH Hx) as (g & a & b & Hg & ->). exists g, a, b.
      split; [now right | reflexivity].
  - intros Hx. destruct (Hh Hx) as (a & b & ->). exists h, a, b.
    split; [now left | reflexivity].
Qed.

(** X17: whatever the files and however the run ends, every Term that
    [iter_terms] yields, of the catalog or of a genome, is in the namespace
    [KEGG_PATHWAY_PREFIX] and has a name; every [has_part] edge it has goes
    to the namespace [kegg.genes] and to a target with no name, every
    [species_specific] edge to [KEGG_PATHWAY_PREFIX], to an identifier that
    starts with [map] and to a target with no name, and every edge in KEGG
    taxon to the Reference of one of the genomes of the driver, whatever
    name that Reference has. *)
Theorem iter_terms_every_term (t : Term) :
  In t (yielded (fst iter_terms)) ->
  prefix (reference t) = KEGG_PATHWAY_PREFIX
  /\ name (reference t) <> None
  /\ (forall r, In r (targets has_part t) ->
                prefix r = "kegg.genes" /\ name r = None)
  /\ (forall r, In r (targets species_specific t) ->
                prefix r = KEGG_PATHWAY_PREFIX /\ name r = None
                /\ exists code, identifier r = ("map" ++ code)%string)
  /\ (forall r, In r (targets from_kegg_species t) ->
                exists g, In g iter_kegg_genomes /\ r = get_reference g).
Proof.
  rewrite iter_terms_eq. unfold gfor_gen.
  destruct ensure_list_pathways as [catalog|e] eqn:Ecat.
  2:{ unfold _iter_map_terms. rewrite Ecat. simpl. contradiction. }
  rewrite (map_terms_events catalog Ecat). cbn [gbind].
  destruct (gfor_gen_events_yielded genome_run (snd iter_kegg_pathway_paths)
              (fst iter_kegg_pathway_paths)) as (n & Hy & _).
  destruct (gfor_gen_events _ _ genome_run) as [es r]. simpl in *.
  rewrite yielded_app, yielded_map_Yield, Hy, in_app_iff.
  intros [Hin | Hin].
  - apply in_map_iff in Hin. destruct Hin as ([k v] & <- & _). simpl.
    split; [reflexivity|]. split; [discriminate|].
    split; [|split]; intros r0 [].
  - apply in_flat_map in Hin. destruct Hin as ([[g a] b] & Hx & Hin).
    assert (Hg : In g iter_kegg_genomes).
    { assert (Hx' : In (g, a, b) (yielded (fst iter_kegg_pathway_paths))).
      { rewrite <- (firstn_skipn n (yielded (fst iter_kegg_pathway_paths))).
        apply in_or_app. now left. }
      apply paths_yield_genomes in Hx'.
      destruct Hx' as (g' & a' & b' & Hg' & [= -> _ _]). exact Hg'. }
    unfold genome_run in Hin. apply genome_terms_member in Hin.
    destruct Hin as (k & nm & c & rv & _ & _ & _ & _ & ->).
    rewrite !targets_append_edges, !targets_part_edges. simpl.
    split; [reflexivity|]. split; [discriminate|]. split; [|split].
    + intros r0 Hr. apply in_map_iff in Hr. destruct Hr as (x & <- & _).
      split; reflexivity.
    + intros r0 [<- | []]. simpl. eauto.
    + intros r0 [<- | []]. eauto.
Qed.
End Pathway.

(** ** The definitions run on the concrete files *)

(** C1: on the listing [path:hsa00010] and the link table with the genes
    [b:123] and [b:045] for it, the two [has_part] edges of the Term go to
    the pathway code [hsa00010], not to the genes: line 62 appends
    [pathway] where the gene, [protein], is meant. *)
Theorem C1_has_part_targets_the_pathway_code :
  map (fun t => (identifier (reference t),
                 map identifier (targets has_part t)))
    (yielded
       (fst (_iter_genome_terms "kegg.pathway" Scenario.get_reference
               Scenario.open_lines "hsa.list" "hsa.link" Scenario.hsa)))
  = [("hsa00010", ["hsa00010"; "hsa00010"])].
Proof. vm_compute. reflexivity. Qed.

(** C2: on a link table whose only line is filed under [hsa99999], a code
    the listing does not have, the unresolved pathway is written and then
    the inner loop calls [append_relationship] on [None]: the generator ends
    by [AttributeError] and yields no Term, not even the one of the
    listing. *)
Theorem C2_unresolved_pathway_raises :
  _iter_genome_terms "kegg.pathway" Scenario.get_reference
    Scenario.open_lines "hsa.list" "stray.link" Scenario.hsa
  = ([Write "could not find kegg.pathway:hsa99999"],
     Raise (AttributeError "append_relationship")).
Proof. vm_compute. reflexivity. Qed.

(** C3 fails as stated: a link table with the same line twice gives the
    Term the same [has_part] target twice. *)
Lemma C3_counterexample :
  exists t,
    In t (yielded
            (fst (_iter_genome_terms "kegg.pathway" Scenario.get_reference
                    Scenario.open_lines "hsa.list" "twice.link"
                    Scenario.hsa)))
    /\ ~ NoDup (map identifier (targets has_part t)).
Proof.
  eexists. split.
  - vm_compute. left. reflexivity.
  - vm_compute. intros H. inversion H as [|? ? Hnot _]. apply Hnot.
    left. reflexivity.
Qed.

Lemma C3_parts_sorted_one_per_line_witness :
  exists t,
    In t (yielded
            (fst (_iter_genome_terms "kegg.pathway" Scenario.get_reference
                    Scenario.open_lines "hsa.list" "hsa.link" Scenario.hsa)))
    /\ StronglySorted (fun a b => String.leb a b = true)
         (map identifier (targets has_part t))
    /\ List.length (map identifier (targets has_part t))
       = link_count (Scenario.open_lines "hsa.link")
           (identifier (reference t)).
Proof.
  assert (H : In (hd (new_Term (mkReference "" "" None))
                    (yielded
                       (fst (_iter_genome_terms "kegg.pathway"
                               Scenario.get_reference Scenario.open_lines
                               "hsa.list" "hsa.link" Scenario.hsa))))
                (yielded
                   (fst (_iter_genome_terms "kegg.pathway"
                           Scenario.get_reference Scenario.open_lines
                           "hsa.list" "hsa.link" Scenario.hsa)))).
  { vm_compute. left. reflexivity. }
  eexists. split; [exact H|].
  exact (C3_parts_sorted_one_per_line "kegg.pathway" Scenario.get_reference
           Scenario.open_lines "hsa.list" "hsa.link" Scenario.hsa _ H).
Defined.

Lemma C7_term_edges_witness :
  exists t,
    In t (yielded
            (fst (_iter_genome_terms "kegg.pathway" Scenario.get_reference
                    Scenario.open_lines "hsa.list" "hsa.link" Scenario.hsa)))
    /\ targets species_specific t
       = [mkReference "kegg.pathway" "map00010" None]
    /\ targets from_kegg_species t = [Scenario.get_reference Scenario.hsa]
    /\ species t = Some "9606".
Proof.
  assert (H : In (hd (new_Term (mkReference "" "" None))
                    (yielded
                       (fst (_iter_genome_terms "kegg.pathway"
                               Scenario.get_reference Scenario.open_lines
                               "hsa.list" "hsa.link" Scenario.hsa))))
                (yielded
                   (fst (_iter_genome_terms "kegg.pathway"
                           Scenario.get_reference Scenario.open_lines
                           "hsa.list" "hsa.link" Scenario.hsa)))).
  { vm_compute. left. reflexivity. }
  eexists. split; [exact H|].
  destruct (C7_term_edges "kegg.pathway" Scenario.get_reference
              Scenario.open_lines "hsa.list" "hsa.link" Scenario.hsa _ H)
    as (_ & Hk & Hs & _).
  split; [vm_compute; reflexivity|]. split; [exact Hk | exact Hs].
Defined.

Lemma C4_code_without_numeric_character_fails_witness :
  pathway_code_of "hsa" = Raise (ValueError MinEmptySequence).
Proof.
  apply (C4_code_without_numeric_character_fails "kegg.pathway"
           Scenario.get_reference Scenario.open_lines "hsa").
  reflexivity.
Defined.

Lemma C6_generic_map_code_witness :
  existsb isdigit (chars "hsa00010") = true
  /\ exists before c rest,
      "hsa00010" = (before ++ String c rest)%string
      /\ existsb isnumeric (chars before) = false
      /\ pathway_code_of "hsa00010" = Ok (String c rest).
Proof.
  split; [reflexivity|].
  destruct (C6_generic_map_code "kegg.pathway" Scenario.get_reference
              "hsa00010" eq_refl)
    as (before & c & rest & Hsplit & Hbefore & Hc & Hcode & _).
  exists before, c, rest. auto.
Defined.

(** [hsa00010] gives [00010], and the edge goes to [map00010]. *)
Example pathway_code_of_hsa00010 : pathway_code_of "hsa00010" = Ok "00010".
Proof. reflexivity. Qed.

Lemma C10_last_listing_line_wins_witness :
  exists t,
    filter (fun t' => String.eqb (identifier (reference t')) "hsa00010")
      (yielded
         (fst (_iter_genome_terms "kegg.pathway" Scenario.get_reference
                 Scenario.open_lines "renamed.list" "hsa.link" Scenario.hsa)))
    = [t]
    /\ reference t
       = mkReference "kegg.pathway" "hsa00010"
           (Some "Glycolysis / Gluconeogenesis")
    /\ List.length (targets species_specific t) = 1
    /\ List.length (targets from_kegg_species t) = 1.
Proof.
  apply (C10_last_listing_line_wins "kegg.pathway" Scenario.get_reference
           Scenario.open_lines "renamed.list" "hsa.link" Scenario.hsa
           (fst (_iter_genome_terms "kegg.pathway" Scenario.get_reference
                   Scenario.open_lines "renamed.list" "hsa.link"
                   Scenario.hsa))
           [Scenario.row "path:hsa00010" "Glycolysis";
            Scenario.row "path:hsa00020" "TCA cycle"]
           []
           (Scenario.row "path:hsa00010" "Glycolysis / Gluconeogenesis")).
  - vm_compute. reflexivity.
  - reflexivity.
  - reflexivity.
  - intros line' name' [].
Defined.

Lemma C5_http_errors_skip_the_genome_witness :
  snd (iter_kegg_pathway_paths Scenario.ensure_list Scenario.ensure_link_500
         [Scenario.xyz; Scenario.hsa]) = Ok tt
  /\ yielded
       (fst (iter_kegg_pathway_paths Scenario.ensure_list
               Scenario.ensure_link_500 [Scenario.xyz; Scenario.hsa]))
     = [(Scenario.hsa, "hsa.list", "hsa.link")]
  /\ written
       (fst (iter_kegg_pathway_paths Scenario.ensure_list
               Scenario.ensure_link_500 [Scenario.xyz; Scenario.hsa]))
     = ["[HTTP 500] Error downloading xyz (Xyz organism): http://rest.kegg.jp/link/pathway/xyz"].
Proof.
  destruct (C5_http_errors_skip_the_genome Scenario.ensure_list
              Scenario.ensure_link_500 [Scenario.xyz; Scenario.hsa])
    as (Hend & Hy & Hw & _).
  - intros g e [<- | [<- | []]]; vm_compute; intros H.
    + injection H as <-. eauto.
    + discriminate.
  - split; [exact Hend|]. split; [rewrite Hy | rewrite Hw];
      vm_compute; reflexivity.
Defined.

(** C5 fails as stated: a fetch that times out raises a [URLError] that is
    not an [HTTPError]; nothing is written for the genome, the driver ends by
    that exception and so does [iter_terms], and the next genome, whose files
    are there, is never reached. *)
Lemma C5_counterexample :
  fetch_paths Scenario.ensure_list_down Scenario.ensure_link Scenario.xyz
  = Raise (URLError "timed out")
  /\ fetch_paths Scenario.ensure_list_down Scenario.ensure_link Scenario.hsa
     = Ok ("hsa.list", "hsa.link")
  /\ iter_kegg_pathway_paths Scenario.ensure_list_down Scenario.ensure_link
       [Scenario.xyz; Scenario.hsa]
     = ([], Raise (URLError "timed out"))
  /\ iter_terms "kegg.pathway" (Ok Scenario.catalog)
       Scenario.ensure_list_down Scenario.ensure_link
       [Scenario.xyz; Scenario.hsa] Scenario.get_reference
       Scenario.open_lines
     = ([Yield (new_Term (mkReference "kegg.pathway" "map00010"
                            (Some "Glycolysis")))],
        Raise (URLError "timed out")).
Proof. split; [|split; [|split]]; vm_compute; reflexivity. Qed.

Lemma C8_map_terms_then_genome_terms_witness :
  yielded
    (fst (iter_terms "kegg.pathway" (Ok Scenario.catalog)
            Scenario.ensure_list Scenario.ensure_link
            [Scenario.xyz; Scenario.hsa] Scenario.get_reference
            Scenario.open_lines))
  = [mkTerm (mkReference "kegg.pathway" "map00010" (Some "Glycolysis"))
       [] None;
     mkTerm
       (mkReference "kegg.pathway" "hsa00010"
          (Some "Glycolysis / Gluconeogenesis"))
       [(species_specific, mkReference "kegg.pathway" "map00010" None);
        (from_kegg_species,
         mkReference "kegg.genome" "hsa" (Some "Homo sapiens"));
        (has_part, mkReference "kegg.genes" "hsa00010" None);
        (has_part, mkReference "kegg.genes" "hsa00010" None)]
       (Some "9606")]
  /\ snd (iter_terms "kegg.pathway" (Ok Scenario.catalog)
            Scenario.ensure_list Scenario.ensure_link
            [Scenario.xyz; Scenario.hsa] Scenario.get_reference
            Scenario.open_lines)
     = Ok tt.
Proof.
  destruct (C8_map_terms_then_genome_terms "kegg.pathway"
              (Ok Scenario.catalog) Scenario.ensure_list Scenario.ensure_link
              [Scenario.xyz; Scenario.hsa] Scenario.get_reference
              Scenario.open_lines Scenario.catalog eq_refl)
    as (Hmap & Hy & He & _).
  rewrite Hy, Hmap, He. split; vm_compute; reflexivity.
Defined.

(** The end-to-end scenario of the spec, as the code runs it: the
    reference map first, then the Term of [hsa00010]; the genome [xyz],
    whose link table is not published, gives nothing. *)
Example iter_terms_scenario :
  map (fun t => identifier (reference t))
    (yielded
       (fst (iter_terms "kegg.pathway" (Ok Scenario.catalog)
               Scenario.ensure_list Scenario.ensure_link
               [Scenario.xyz; Scenario.hsa] Scenario.get_reference
               Scenario.open_lines)))
  = ["map00010"; "hsa00010"]
  /\ snd (iter_terms "kegg.pathway" (Ok Scenario.catalog)
            Scenario.ensure_list Scenario.ensure_link
            [Scenario.xyz; Scenario.hsa] Scenario.get_reference
            Scenario.open_lines)
     = Ok tt.
Proof. split; vm_compute; reflexivity. Qed.

(** Files whose code fields do not start with [path:]: five characters go
    all the same, and [hsa00010] is filed and emitted as [010]. *)
Example unprefixed_code_loses_five_characters :
  link_key (Scenario.row "b:123" "hsa00010") = Some "010"
  /\ listing_entry (Scenario.row "hsa00010" "Glycolysis")
     = Some ("010", "Glycolysis")
  /\ map (fun t => identifier (reference t))
       (yielded
          (fst (_iter_genome_terms "kegg.pathway" Scenario.get_reference
                  Scenario.open_lines "unprefixed.list" "unprefixed.link"
                  Scenario.hsa)))
     = ["010"].
Proof. split; [|split]; vm_compute; reflexivity. Qed.

(** C9 fails as stated for the listing: the code field [hsa01] does not
    begin with [path:]; its five characters go all the same, nothing is
    left, and instead of what is left being used as the identifier line 91
    raises. *)
Lemma C9_counterexample :
  map strip (split tab (strip (Scenario.row "hsa01" "Glycolysis")))
  = ["hsa01"; "Glycolysis"]
  /\ slice_to 5 "hsa01" <> "path:"
  /\ slice_from (String.length "path:") "hsa01" = ""
  /\ (forall terms,
         listing_line "kegg.pathway" Scenario.get_reference Scenario.hsa terms
           (Scenario.row "hsa01" "Glycolysis")
         = Raise (ValueError MinEmptySequence)).
Proof.
  split; [reflexivity|]. split; [discriminate|]. split; [reflexivity|].
  intros terms. rewrite listing_line_eq. reflexivity.
Qed.

(** ** Further properties, across runs and on the concrete files *)

(** X15: a genome whose fetch raises an [HTTPError] of status 404 leaves no
    trace: the driver, and [iter_terms] with it, yield, write and end
    exactly as they do when the genome is not in the list. *)
Theorem not_found_genome_leaves_no_trace (KEGG_PATHWAY_PREFIX : string)
  (ensure_list_pathways : Res (dict string))
  (ensure_list_pathway_genome ensure_link_pathway_genome : string -> Res string)
  (get_reference : KEGGGenome -> Reference)
  (open_lines : string -> list string)
  (l1 l2 : list KEGGGenome) (g : KEGGGenome) (url : string) :
  fetch_paths ensure_list_pathway_genome ensure_link_pathway_genome g
  = Raise (HTTPError 404 url) ->
  iter_kegg_pathway_paths ensure_list_pathway_genome
    ensure_link_pathway_genome (l1 ++ g :: l2)
  = iter_kegg_pathway_paths ensure_list_pathway_genome
      ensure_link_pathway_genome (l1 ++ l2)
  /\ iter_terms KEGG_PATHWAY_PREFIX ensure_list_pathways
       ensure_list_pathway_genome ensure_link_pathway_genome (l1 ++ g :: l2)
       get_reference open_lines
     = iter_terms KEGG_PATHWAY_PREFIX ensure_list_pathways
         ensure_list_pathway_genome ensure_link_pathway_genome (l1 ++ l2)
         get_reference open_lines.
Proof.
  intros Hf. unfold iter_terms, iter_kegg_pathway_paths.
  rewrite (paths_skip_not_found ensure_list_pathway_genome
             ensure_link_pathway_genome l1 l2 g url Hf).
  split; reflexivity.
Qed.

Lemma not_found_genome_leaves_no_trace_witness :
  iter_terms "kegg.pathway" (Ok Scenario.catalog) Scenario.ensure_list
    Scenario.ensure_link ([Scenario.hsa] ++ Scenario.xyz :: [Scenario.hsa])
    Scenario.get_reference Scenario.open_lines
  = iter_terms "kegg.pathway" (Ok Scenario.catalog) Scenario.ensure_list
      Scenario.ensure_link ([Scenario.hsa] ++ [Scenario.hsa])
      Scenario.get_reference Scenario.open_lines.
Proof.
  apply (not_found_genome_leaves_no_trace "kegg.pathway" (Ok Scenario.catalog)
           Scenario.ensure_list Scenario.ensure_link Scenario.get_reference
           Scenario.open_lines [Scenario.hsa] [Scenario.hsa] Scenario.xyz
           "http://rest.kegg.jp/link/pathway/xyz").
  reflexivity.
Defined.

Lemma link_map_contents_witness :
  keys [("hsa00010", ["hsa00010"; "hsa00010"]); ("hsa00020", ["hsa00020"])]
  = first_occurrences (link_codes (Cases.open_lines "two.link")).
Proof.
  apply (link_map_contents Cases.open_lines "two.link"
           [("hsa00010", ["hsa00010"; "hsa00010"]);
            ("hsa00020", ["hsa00020"])]).
  vm_compute. reflexivity.
Defined.

Lemma genome_terms_all_or_nothing_witness :
  yielded
    (fst (_iter_genome_terms "kegg.pathway" Scenario.get_reference
            Scenario.open_lines "hsa.list" "stray.link" Scenario.hsa))
  = [].
Proof.
  apply (genome_terms_all_or_nothing "kegg.pathway" Scenario.get_reference
           Scenario.open_lines "hsa.list" "stray.link" Scenario.hsa
           (AttributeError "append_relationship")).
  vm_compute. reflexivity.
Defined.

Lemma genome_terms_in_listing_order_witness :
  map (fun t => identifier (reference t))
    (yielded
       (fst (_iter_genome_terms "kegg.pathway" Scenario.get_reference
               Cases.open_lines "two.list" "two.link" Scenario.hsa)))
  = first_occurrences (listing_codes (Cases.open_lines "two.list")).
Proof.
  apply (genome_terms_in_listing_order "kegg.pathway" Scenario.get_reference
           Cases.open_lines "two.list" "two.link" Scenario.hsa).
  vm_compute. reflexivity.
Defined.

(** The listing names [hsa00020], [hsa00010], [hsa00020]: two Terms, the
    one of [hsa00020] first and with the name of the third line. *)
Example two_list_terms :
  map (fun t => (identifier (reference t), name (reference t)))
    (yielded
       (fst (_iter_genome_terms "kegg.pathway" Scenario.get_reference
               Cases.open_lines "two.list" "two.link" Scenario.hsa)))
  = [("hsa00020", Some "Citrate cycle (TCA cycle)");
     ("hsa00010", Some "Glycolysis / Gluconeogenesis")].
Proof. vm_compute. reflexivity. Qed.

Lemma genome_term_shape_witness :
  exists t name code,
    In t (yielded
            (fst (_iter_genome_terms "kegg.pathway" Scenario.get_reference
                    Cases.open_lines "two.list" "two.link" Scenario.hsa)))
    /\ identifier (reference t) = "hsa00010"
    /\ t = mkTerm
             (mkReference "kegg.pathway" (identifier (reference t))
                (Some name))
             ([(species_specific,
                mkReference "kegg.pathway" ("map" ++ code)%string None);
               (from_kegg_species, Scenario.get_reference Scenario.hsa)]
              ++ repeat (has_part,
                         mkReference "kegg.genes" (identifier (reference t))
                           None)
                   (link_count (Cases.open_lines "two.link")
                      (identifier (reference t))))
             (taxonomy_id Scenario.hsa).
Proof.
  assert (H : In (nth 1
                    (yielded
                       (fst (_iter_genome_terms "kegg.pathway"
                               Scenario.get_reference Cases.open_lines
                               "two.list" "two.link" Scenario.hsa)))
                    (new_Term (mkReference "" "" None)))
                (yielded
                   (fst (_iter_genome_terms "kegg.pathway"
                           Scenario.get_reference Cases.open_lines
                           "two.list" "two.link" Scenario.hsa)))).
  { vm_compute. right. left. reflexivity. }
  destruct (genome_term_shape "kegg.pathway" Scenario.get_reference
              Cases.open_lines "two.list" "two.link" Scenario.hsa _ H)
    as (name & code & _ & _ & Heq).
  eexists. exists name, code. split; [exact H|].
  split; [vm_compute; reflexivity | exact Heq].
Defined.

Lemma genome_terms_first_bad_listing_line_witness :
  _iter_genome_terms "kegg.pathway" Scenario.get_reference Cases.open_lines
    "noname.list" "two.link" Scenario.hsa
  = ([], Raise (ValueError (Unpack 2 1))).
Proof.
  apply (genome_terms_first_bad_listing_line "kegg.pathway"
           Scenario.get_reference Cases.open_lines "noname.list" "two.link"
           Scenario.hsa
           [Scenario.row "path:hsa00010" "Glycolysis / Gluconeogenesis"]
           [Scenario.row "path:hsa00020" "TCA cycle"]
           (Scenario.row "path:hsa00030" "")).
  - reflexivity.
  - intros l [<- | []].
    exists "hsa00010", "Glycolysis / Gluconeogenesis", "00010".
    split; reflexivity.
  - reflexivity.
Defined.

Lemma line_with_empty_field_raises_witness :
  link_line [] (Scenario.row "b:1" "") = Raise (ValueError (Unpack 2 1)).
Proof.
  apply (line_with_empty_field_raises "kegg.pathway" Scenario.get_reference
           "b:1" (String "010"%char EmptyString)); reflexivity.
Defined.

Lemma pathway_code_whatever_the_letters_witness :
  pathway_code_of ("map" ++ "00010") = Ok "00010".
Proof.
  apply (pathway_code_whatever_the_letters "hsa00010" "00010" "map");
    reflexivity.
Defined.

Lemma driver_stops_at_other_exception_witness :
  snd (iter_kegg_pathway_paths Scenario.ensure_list_down Scenario.ensure_link
         [Scenario.hsa; Scenario.xyz; Scenario.hsa])
  = Raise (URLError "timed out")
  /\ yielded
       (fst (iter_kegg_pathway_paths Scenario.ensure_list_down
               Scenario.ensure_link
               [Scenario.hsa; Scenario.xyz; Scenario.hsa]))
     = flat_map (fetched Scenario.ensure_list_down Scenario.ensure_link)
         [Scenario.hsa]
  /\ written
       (fst (iter_kegg_pathway_paths Scenario.ensure_list_down
               Scenario.ensure_link
               [Scenario.hsa; Scenario.xyz; Scenario.hsa]))
     = flat_map (reported Scenario.ensure_list_down Scenario.ensure_link)
         [Scenario.hsa].
Proof.
  apply (driver_stops_at_other_exception Scenario.ensure_list_down
           Scenario.ensure_link [Scenario.hsa; Scenario.xyz; Scenario.hsa]
           [Scenario.hsa] [Scenario.hsa] Scenario.xyz (URLError "timed out")).
  - reflexivity.
  - intros h e' [<- | []]. vm_compute. discriminate.
  - reflexivity.
  - intros code url. discriminate.
Defined.

Lemma iter_terms_normal_run_witness :
  yielded
    (fst (iter_terms "kegg.pathway" (Ok Scenario.catalog)
            Scenario.ensure_list Scenario.ensure_link_500
            [Scenario.xyz; Scenario.hsa] Scenario.get_reference
            Scenario.open_lines))
  = yielded (fst (_iter_map_terms "kegg.pathway" (Ok Scenario.catalog)))
    ++ flat_map
         (genome_terms "kegg.pathway" Scenario.get_reference
            Scenario.open_lines)
         (flat_map (fetched Scenario.ensure_list Scenario.ensure_link_500)
            [Scenario.xyz; Scenario.hsa])
  /\ written
       (fst (iter_terms "kegg.pathway" (Ok Scenario.catalog)
               Scenario.ensure_list Scenario.ensure_link_500
               [Scenario.xyz; Scenario.hsa] Scenario.get_reference
               Scenario.open_lines))
     = flat_map (reported Scenario.ensure_list Scenario.ensure_link_500)
         [Scenario.xyz; Scenario.hsa].
Proof.
  apply (iter_terms_normal_run "kegg.pathway" (Ok Scenario.catalog)
           Scenario.ensure_list Scenario.ensure_link_500
           [Scenario.xyz; Scenario.hsa] Scenario.get_reference
           Scenario.open_lines).
  vm_compute. reflexivity.
Defined.

Lemma iter_terms_stops_at_first_failure_witness :
  snd (iter_terms "kegg.pathway" (Ok Scenario.catalog) Scenario.ensure_list
         Scenario.ensure_link [Scenario.hsa; Cases.stray; Scenario.hsa]
         Scenario.get_reference Cases.open_lines)
  = Raise (AttributeError "append_relationship")
  /\ yielded
       (fst (iter_terms "kegg.pathway" (Ok Scenario.catalog)
               Scenario.ensure_list Scenario.ensure_link
               [Scenario.hsa; Cases.stray; Scenario.hsa]
               Scenario.get_reference Cases.open_lines))
     = yielded (fst (_iter_map_terms "kegg.pathway" (Ok Scenario.catalog)))
       ++ flat_map
            (genome_terms "kegg.pathway" Scenario.get_reference
               Cases.open_lines)
            (flat_map (fetched Scenario.ensure_list Scenario.ensure_link)
               [Scenario.hsa]).
Proof.
  apply (iter_terms_stops_at_first_failure "kegg.pathway"
           (Ok Scenario.catalog) Scenario.ensure_list Scenario.ensure_link
           [Scenario.hsa; Cases.stray; Scenario.hsa] Scenario.get_reference
           Cases.open_lines Scenario.catalog [Scenario.hsa] [Scenario.hsa]
           Cases.stray (AttributeError "append_relationship")).
  - reflexivity.
  - reflexivity.
  - intros h [<- | []]. vm_compute. reflexivity.
  - vm_compute. reflexivity.
Defined.

(** The link table with a blank line: the line has one field, and the map
    is not returned. *)
Example blank_link_line_raises :
  _get_link_pathway_map Cases.open_lines "blank.link"
  = Raise (ValueError (Unpack 2 1)).
Proof. vm_compute. reflexivity. Qed.

Lemma genome_terms_edges_count_witness :
  list_sum
    (map (fun t => List.length (targets has_part t))
       (yielded
          (fst (_iter_genome_terms "kegg.pathway" Scenario.get_reference
                  Cases.open_lines "two.list" "two.link" Scenario.hsa))))
  = List.length (Cases.open_lines "two.link").
Proof.
  apply (genome_terms_edges_count "kegg.pathway" Scenario.get_reference
           Cases.open_lines "two.list" "two.link" Scenario.hsa).
  vm_compute. reflexivity.
Defined.

Lemma iter_terms_every_term_witness :
  exists t,
    In t (yielded
            (fst (iter_terms "kegg.pathway" (Ok Scenario.catalog)
                    Scenario.ensure_list Scenario.ensure_link
                    [Scenario.xyz; Scenario.hsa] Scenario.get_reference
                    Scenario.open_lines)))
    /\ identifier (reference t) = "hsa00010"
    /\ prefix (reference t) = "kegg.pathway"
    /\ name (reference t) <> None.
Proof.
  assert (H : In (nth 1
                    (yielded
                       (fst (iter_terms "kegg.pathway" (Ok Scenario.catalog)
                               Scenario.ensure_list Scenario.ensure_link
                               [Scenario.xyz; Scenario.hsa]
                               Scenario.get_reference Scenario.open_lines)))
                    (new_Term (mkReference "" "" None)))
                (yielded
                   (fst (iter_terms "kegg.pathway" (Ok Scenario.catalog)
                           Scenario.ensure_list Scenario.ensure_link
                           [Scenario.xyz; Scenario.hsa]
                           Scenario.get_reference Scenario.open_lines)))).
  { vm_compute. right. left. reflexivity. }
  destruct (iter_terms_every_term "kegg.pathway" (Ok Scenario.catalog)
              Scenario.ensure_list Scenario.ensure_link
              [Scenario.xyz; Scenario.hsa] Scenario.get_reference
              Scenario.open_lines _ H) as (Hp & Hn & _).
  eexists. split; [exact H|]. split; [vm_compute; reflexivity|].
  split; [exact Hp | exact Hn].
Defined.
